(** * procedural_city_map: road graph, plot extraction and building placement

    A shallow embedding of the TypeScript sources under [src/logic]
    ([geometry.ts], [PlotGenerator.ts], [BuildingGenerator.ts],
    [CityGenerator.ts]).

    Numbers are JavaScript numbers, that is IEEE-754 binary64 values, and are
    modelled by Rocq's primitive floats: [+ - * /], [Math.sqrt], [Math.abs]
    and the comparisons are the primitive operations.  The functions of
    [Math] that IEEE-754 does not define ([Math.hypot], [Math.atan2],
    [Math.sin], ...) are collected in the class [MathLib] and stay abstract:
    general theorems hold for every implementation, theorems about concrete
    inputs state which values they rely on. *)

From Stdlib Require Import String DecimalString Floats ZArith Bool Lia Arith List.
From Stdlib Require DecimalNat DecimalFacts.
Import ListNotations.

Set Warnings "-inexact-float".
Set Implicit Arguments.

Open Scope float_scope.

(** ** JavaScript numbers *)

Module Num.

(** [a > b], [a >= b] and [a === b] of JavaScript, on numbers. *)
Definition gtb (a b : float) : bool := b <? a.
Definition geb (a b : float) : bool := b <=? a.

(** [Math.min] and [Math.max] of two numbers: NaN if either is NaN. *)
Definition min (a b : float) : float :=
  if is_nan a then a else if is_nan b then b
  else if a <? b then a else if b <? a then b
  else if get_sign a then a else b.
Definition max (a b : float) : float :=
  if is_nan a then a else if is_nan b then b
  else if a <? b then b else if b <? a then a
  else if get_sign a then b else a.

(** [Math.floor]: the largest integral value not above [x]; NaN, the
    infinities and the zeros are returned unchanged. *)
Definition floor (x : float) : float :=
  match Prim2SF x with
  | S754_finite s m e =>
      if (0 <=? e)%Z then x
      else
        let d := Z.pow 2 (- e) in
        let q := if s then (- ((Z.pos m + d - 1) / d))%Z
                 else (Z.pos m / d)%Z in
        if (q =? 0)%Z then (if s then (-0) else 0)
        else SF2Prim (binary_normalize prec emax q 0 false)
  | _ => x
  end.

End Num.

Infix ">?" := Num.gtb (at level 70, no associativity) : float_scope.
Infix ">=?" := Num.geb (at level 70, no associativity) : float_scope.

(** The part of JavaScript's [Math] that is implementation-approximated. *)
Class MathLib : Type := {
  hypot : float -> float -> float;
  atan2 : float -> float -> float;
  Math_sin : float -> float;
  Math_acos : float -> float;
}.

(** A reference implementation: [hypot] by its defining formula, [atan2]
    exact on the eight compass directions (and 0 elsewhere), used to run
    the model on inputs whose directions are axis-aligned or diagonal. *)
Module RefMath.

Definition PI : float := 0x1.921fb54442d18p+1.

Definition hypot_formula (x y : float) : float := sqrt (x * x + y * y).

Definition atan2_compass (y x : float) : float :=
  if y =? 0 then (if x <? 0 then PI else 0)
  else if x =? 0 then (if 0 <? y then PI / 2 else - (PI / 2))
  else if abs x =? abs y then
    (if 0 <? y then (if 0 <? x then PI / 4 else 3 * PI / 4)
     else (if 0 <? x then - (PI / 4) else - (3 * PI / 4)))
  else 0.

(** The reference [hypot] and [atan2] next to any [Math.sin] and
    [Math.acos]. *)
Definition math_with (sinF acosF : float -> float) : MathLib :=
  {| hypot := hypot_formula; atan2 := atan2_compass;
     Math_sin := sinF; Math_acos := acosF |}.

Definition math : MathLib := math_with (fun _ => 0) (fun _ => 0).

End RefMath.

(** ** types.ts *)

Record Point : Type := mkPoint { px : float; py : float }.

Definition origin : Point := mkPoint 0 0.

(** [polygon[i]] for an index that the caller keeps in range. *)
Definition at_ (polygon : list Point) (i : nat) : Point := nth i polygon origin.

(** ** geometry.ts *)

Section Geometry.

Context {M : MathLib}.

(** Ray casting: [j] trails [i], starting from the last vertex. *)
Definition pointInPolygon (point : Point) (polygon : list Point) : bool :=
  let n := length polygon in
  snd (fold_left
    (fun (st : nat * bool) (i : nat) =>
       let '(j, inside) := st in
       let xi := px (at_ polygon i) in let yi := py (at_ polygon i) in
       let xj := px (at_ polygon j) in let yj := py (at_ polygon j) in
       let hit :=
         xorb (yi >? py point) (yj >? py point) &&
         (px point <? (xj - xi) * (py point - yi) / (yj - yi) + xi) in
       (i, if hit then negb inside else inside))
    (seq 0 n) ((n - 1)%nat, false)).

(** The shoelace accumulator shared by [calculatePolygonArea] and
    [shrinkPolygon]: [area += p[i].x * p[j].y; area -= p[j].x * p[i].y]. *)
Definition shoelace (polygon : list Point) : float :=
  let n := length polygon in
  fold_left
    (fun (area : float) (i : nat) =>
       let j := ((i + 1) mod n)%nat in
       area + px (at_ polygon i) * py (at_ polygon j)
            - px (at_ polygon j) * py (at_ polygon i))
    (seq 0 n) 0.

Definition calculatePolygonArea (polygon : list Point) : float :=
  if (length polygon <? 3)%nat then 0
  else abs (shoelace polygon / 2).

Definition calculateCentroid (polygon : list Point) : Point :=
  match polygon with
  | [] => mkPoint 0 0
  | _ =>
      let '(cx, cy) :=
        fold_left (fun (c : float * float) (p : Point) =>
                     (fst c + px p, snd c + py p)) polygon (0, 0) in
      let len := PrimFloat.of_uint63 (Uint63.of_nat (length polygon)) in
      mkPoint (cx / len) (cy / len)
  end.

Definition lineLineIntersection (p1 p2 p3 p4 : Point) : option Point :=
  let d1x := px p2 - px p1 in
  let d1y := py p2 - py p1 in
  let d2x := px p4 - px p3 in
  let d2y := py p4 - py p3 in
  let cross := d1x * d2y - d1y * d2x in
  if abs cross <? 0.0001 then None
  else
    let t := ((px p3 - px p1) * d2y - (py p3 - py p1) * d2x) / cross in
    Some (mkPoint (px p1 + t * d1x) (py p1 + t * d1y)).

(** The offset edges of [shrinkPolygon]; edges shorter than 0.001 are
    skipped. *)
Definition offsetEdges (polygon : list Point) (distance : float)
  : list (Point * Point) :=
  let n := length polygon in
  let normalSign := if shoelace polygon >? 0 then (-1) else 1 in
  flat_map
    (fun i : nat =>
       let p1 := at_ polygon i in
       let p2 := at_ polygon ((i + 1) mod n) in
       let dx := px p2 - px p1 in
       let dy := py p2 - py p1 in
       let len := sqrt (dx * dx + dy * dy) in
       if len <? 0.001 then []
       else
         let nx := (dy / len) * normalSign in
         let ny := (- dx / len) * normalSign in
         [(mkPoint (px p1 + nx * distance) (py p1 + ny * distance),
           mkPoint (px p2 + nx * distance) (py p2 + ny * distance))])
    (seq 0 n).

(** The corner loop of [shrinkPolygon]: consecutive offset edges are
    intersected, and an intersection further than [5 * distance] from the
    original corner is clamped. *)
Definition shrinkCorners (polygon : list Point) (distance : float)
           (edges : list (Point * Point)) : list Point :=
  let n := length polygon in
  let m := length edges in
  let maxOffsetDistance := distance * 5 in
  flat_map
    (fun i : nat =>
       let e1 := nth i edges (origin, origin) in
       let e2 := nth ((i + 1) mod m) edges (origin, origin) in
       let originalCorner := at_ polygon ((i + 1) mod n) in
       match lineLineIntersection (fst e1) (snd e1) (fst e2) (snd e2) with
       | None => []
       | Some intersection =>
           let distFromOriginal :=
             hypot (px intersection - px originalCorner)
                   (py intersection - py originalCorner) in
           if distFromOriginal >? maxOffsetDistance then
             let dx := px intersection - px originalCorner in
             let dy := py intersection - py originalCorner in
             let scale := maxOffsetDistance / distFromOriginal in
             [mkPoint (px originalCorner + dx * scale)
                      (py originalCorner + dy * scale)]
           else [intersection]
       end)
    (seq 0 m).

Definition shrinkPolygon (polygon : list Point) (distance : float)
  : list Point :=
  if (length polygon <? 3)%nat then []
  else
    let edges := offsetEdges polygon distance in
    if (length edges <? 3)%nat then []
    else
      let result := shrinkCorners polygon distance edges in
      if (length result <? 3)%nat then []
      else if calculatePolygonArea result <? 50 then []
      else result.

End Geometry.

Definition square20 : list Point :=
  [mkPoint 0 0; mkPoint 20 0; mkPoint 20 20; mkPoint 0 20].

Example shrink_square20_ref :
  @shrinkPolygon RefMath.math square20 2
  = [mkPoint 18 2; mkPoint 18 18; mkPoint 2 18; mkPoint 2 2].
Proof. vm_compute. reflexivity. Qed.

(** ** Order facts on binary64 numbers *)

Module FloatOrder.

Lemma SFcompare_flip (x y : spec_float) (c : comparison) :
  SFcompare x y = Some c -> SFcompare y x = Some (CompOpp c).
Proof.
  destruct x as [sx| sx| |sx mx ex], y as [sy| sy| |sy my ey]; simpl;
    try discriminate; intros [= <-];
    try destruct sx; try destruct sy; try reflexivity.
  all: rewrite (Z.compare_antisym ex ey);
    destruct (ex ?= ey)%Z; simpl; try reflexivity;
    change PosDef.Pos.compare_cont with Pos.compare_cont;
    rewrite (Pos.compare_cont_antisym mx my Eq); reflexivity.
Qed.

Lemma SFcompare_total (x y : spec_float) :
  SFcompare x x <> None -> SFcompare y y <> None -> SFcompare x y <> None.
Proof.
  destruct x as [sx| sx| |sx mx ex], y as [sy| sy| |sy my ey]; simpl;
    congruence.
Qed.

(** For numbers that are not NaN, [not (a < b)] is [b <= a]. *)
Lemma ltb_false_leb (a b : float) :
  is_nan a = false -> is_nan b = false ->
  (a <? b) = false -> (b <=? a) = true.
Proof.
  unfold is_nan. rewrite !FloatAxioms.eqb_spec, ltb_spec, leb_spec.
  unfold SFeqb, SFltb, SFleb. intros Ha Hb Hlt.
  assert (Hx : SFcompare (Prim2SF a) (Prim2SF a) <> None)
    by (destruct (SFcompare (Prim2SF a) (Prim2SF a)); [discriminate|discriminate Ha]).
  assert (Hy : SFcompare (Prim2SF b) (Prim2SF b) <> None)
    by (destruct (SFcompare (Prim2SF b) (Prim2SF b)); [discriminate|discriminate Hb]).
  pose proof (SFcompare_total _ _ Hx Hy) as Ht.
  destruct (SFcompare (Prim2SF a) (Prim2SF b)) as [c|] eqn:E; [|congruence].
  rewrite (SFcompare_flip _ _ E).
  destruct c; simpl; try reflexivity; discriminate.
Qed.

End FloatOrder.

(** ** Properties of [shrinkPolygon] *)

Section ShrinkPolygon.

Context {M : MathLib}.

Lemma shrinkPolygon_cases (polygon : list Point) (distance : float) :
  shrinkPolygon polygon distance = []
  \/ (shrinkPolygon polygon distance
        = shrinkCorners polygon distance (offsetEdges polygon distance)
      /\ (3 <= length (shrinkPolygon polygon distance))%nat
      /\ (calculatePolygonArea (shrinkPolygon polygon distance) <? 50)
         = false).
Proof.
  unfold shrinkPolygon.
  destruct (length polygon <? 3)%nat; [left; reflexivity|].
  destruct (length (offsetEdges polygon distance) <? 3)%nat;
    [left; reflexivity|].
  destruct (length (shrinkCorners _ _ _) <? 3)%nat eqn:Hlen;
    [left; reflexivity|].
  destruct (calculatePolygonArea (shrinkCorners _ _ _) <? 50) eqn:Harea;
    [left; reflexivity|].
  right. apply Nat.ltb_ge in Hlen. auto.
Qed.

End ShrinkPolygon.

(** The four displacements from an original corner of [square20] to the
    matching corner of its offset by 2. *)
Definition square20_corner_moves : list (float * float) :=
  [(-2, 2); (-2, -2); (2, -2); (2, 2)].

(** C9. [shrinkPolygon] applied to the axis-aligned 20-by-20 square with
    distance 2 returns exactly 4 vertices, and the area of the result is
    strictly less than 400 and strictly greater than 200.  The only fact used
    about [Math.hypot] is that the four corner displacements, of length
    [2 * sqrt 2], are not reported longer than [2 * 5]. *)
Theorem shrinkPolygon_square20 (M : MathLib)
  (Hhypot : forall a b, In (a, b) square20_corner_moves ->
                        (hypot a b >? 2 * 5) = false) :
  length (shrinkPolygon square20 2) = 4%nat
  /\ (calculatePolygonArea (shrinkPolygon square20 2) <? 400) = true
  /\ (calculatePolygonArea (shrinkPolygon square20 2) >? 200) = true.
Proof.
  assert (E : shrinkPolygon square20 2
              = [mkPoint 18 2; mkPoint 18 18; mkPoint 2 18; mkPoint 2 2]).
  { pose proof (Hhypot (-2) 2 (or_introl eq_refl)) as H1.
    pose proof (Hhypot (-2) (-2) (or_intror (or_introl eq_refl))) as H2.
    pose proof (Hhypot 2 (-2) (or_intror (or_intror (or_introl eq_refl)))) as H3.
    pose proof (Hhypot 2 2
                  (or_intror (or_intror (or_intror (or_introl eq_refl))))) as H4.
    unfold Num.gtb in H1, H2, H3, H4.
    unfold shrinkPolygon.
    change (length square20 <? 3)%nat with false. cbv iota.
    change (offsetEdges square20 2)
      with [(mkPoint 0 2, mkPoint 20 2); (mkPoint 18 0, mkPoint 18 20);
            (mkPoint 20 18, mkPoint 0 18); (mkPoint 2 20, mkPoint 2 0)].
    cbv beta iota zeta delta [length Nat.ltb Nat.leb].
    assert (Ec : shrinkCorners square20 2
              [(mkPoint 0 2, mkPoint 20 2); (mkPoint 18 0, mkPoint 18 20);
               (mkPoint 20 18, mkPoint 0 18); (mkPoint 2 20, mkPoint 2 0)]
            = [mkPoint 18 2; mkPoint 18 18; mkPoint 2 18; mkPoint 2 2]).
    { vm_compute.
      repeat match goal with
             | |- context [if ?c then _ else _] =>
                 replace c with false by (symmetry; assumption)
             end.
      reflexivity. }
    rewrite Ec. vm_compute. reflexivity. }
  rewrite E. vm_compute. auto.
Qed.

Lemma shrinkPolygon_square20_witness :
  length (@shrinkPolygon RefMath.math square20 2) = 4%nat
  /\ (calculatePolygonArea (@shrinkPolygon RefMath.math square20 2) <? 400)
     = true
  /\ (calculatePolygonArea (@shrinkPolygon RefMath.math square20 2) >? 200)
     = true.
Proof.
  apply (@shrinkPolygon_square20 RefMath.math).
  intros a b H.
  repeat (destruct H as [H|H]; [injection H as <- <-; vm_compute; reflexivity|]).
  destruct H.
Defined.

(** A square of side [1e200]: all coordinates are finite numbers, but the
    products of the shoelace and intersection formulas overflow. *)
Definition hugeSquare : list Point :=
  [mkPoint 0 0; mkPoint 1e200 0; mkPoint 1e200 1e200; mkPoint 0 1e200].

(** C10 (as the code has it). [shrinkPolygon] is total.  Its result is
    either the empty list or the list of corners that the corner loop
    computed from the offset edges, and in the second case it has at least 3
    vertices and its area passed the test [resultArea < 50] negatively: the
    area is not below 50, hence at least 50 unless it is NaN.  A shrink
    whose corners have an area below 50 is discarded and reported as the
    empty list. *)
Theorem shrinkPolygon_total_floor (M : MathLib) (polygon : list Point)
  (distance : float) :
  (shrinkPolygon polygon distance = []
   \/ (shrinkPolygon polygon distance
         = shrinkCorners polygon distance (offsetEdges polygon distance)
       /\ (3 <= length (shrinkPolygon polygon distance))%nat
       /\ (calculatePolygonArea (shrinkPolygon polygon distance) <? 50) = false
       /\ (is_nan (calculatePolygonArea (shrinkPolygon polygon distance)) = true
           \/ (calculatePolygonArea (shrinkPolygon polygon distance) >=? 50)
              = true)))
  /\ ((calculatePolygonArea
         (shrinkCorners polygon distance (offsetEdges polygon distance)) <? 50)
      = true ->
      shrinkPolygon polygon distance = []).
Proof.
  split.
  - destruct (shrinkPolygon_cases polygon distance) as [E|(Eq & Hlen & Harea)];
      [left; exact E|right].
    repeat split; try assumption.
    destruct (is_nan (calculatePolygonArea (shrinkPolygon polygon distance)))
      eqn:Hnan; [left; reflexivity|right].
    unfold Num.geb. apply FloatOrder.ltb_false_leb; auto.
  - intros Hsmall. unfold shrinkPolygon.
    destruct (length polygon <? 3)%nat; [reflexivity|].
    destruct (length (offsetEdges polygon distance) <? 3)%nat; [reflexivity|].
    destruct (length (shrinkCorners _ _ _) <? 3)%nat; [reflexivity|].
    rewrite Hsmall. reflexivity.
Qed.

(** C10 as stated fails: on [hugeSquare] the result has four vertices and an
    area that is NaN, which is not at least 50. *)
Lemma shrinkPolygon_area_floor_fails :
  ~ (forall (M : MathLib) (polygon : list Point) (distance : float),
        shrinkPolygon polygon distance = []
        \/ ((3 <= length (shrinkPolygon polygon distance))%nat
            /\ (calculatePolygonArea (shrinkPolygon polygon distance) >=? 50)
               = true)).
Proof.
  intros H. specialize (H RefMath.math hugeSquare 2).
  destruct H as [H|[_ H]]; vm_compute in H; discriminate H.
Qed.

(** ** geometry.ts, continued: boxes and splitting *)

Section Boxes.

Context {M : MathLib}.

(** [splitPolygon]: the two sides of [poly] about the line through
    [planePt] with normal [planeNorm]; crossing points go to both sides. *)
Definition splitPolygon (poly : list Point) (planePt planeNorm : Point)
  : list Point * list Point :=
  let n := length poly in
  fold_left
    (fun (fb : list Point * list Point) (i : nat) =>
       let '(front, back) := fb in
       let curr := at_ poly i in
       let next := at_ poly ((i + 1) mod n) in
       let d1 := (px curr - px planePt) * px planeNorm
                 + (py curr - py planePt) * py planeNorm in
       let d2 := (px next - px planePt) * px planeNorm
                 + (py next - py planePt) * py planeNorm in
       let front := if d1 >=? 0 then front ++ [curr] else front in
       let back := if d1 <? 0 then back ++ [curr] else back in
       if ((d1 >? 0) && (d2 <? 0)) || ((d1 <? 0) && (d2 >? 0)) then
         let t := d1 / (d1 - d2) in
         let intersect := mkPoint (px curr + t * (px next - px curr))
                                  (py curr + t * (py next - py curr)) in
         (front ++ [intersect], back ++ [intersect])
       else (front, back))
    (seq 0 n) ([], []).

Record BoundingBox : Type := mkBB {
  minX : float; minY : float; maxX : float; maxY : float
}.

Definition getBoundingBox (points : list Point) : BoundingBox :=
  fold_left
    (fun (bb : BoundingBox) (p : Point) =>
       mkBB (Num.min (minX bb) (px p)) (Num.min (minY bb) (py p))
            (Num.max (maxX bb) (px p)) (Num.max (maxY bb) (py p)))
    points (mkBB infinity infinity neg_infinity neg_infinity).

Record OBB : Type := mkOBB {
  obb_length : float; obb_width : float; obb_axis : Point; obb_center : Point
}.

(** [getOBB]: the box aligned with the longest edge. *)
Definition getOBB (poly : list Point) : OBB :=
  let n := length poly in
  let '(_, axis) :=
    fold_left
      (fun (st : float * Point) (i : nat) =>
         let '(longestDist, axis) := st in
         let p1 := at_ poly i in
         let p2 := at_ poly ((i + 1) mod n) in
         let d := hypot (px p2 - px p1) (py p2 - py p1) in
         if d >? longestDist
         then (d, mkPoint ((px p2 - px p1) / d) ((py p2 - py p1) / d))
         else (longestDist, axis))
      (seq 0 n) (0, mkPoint 1 0) in
  let perp := mkPoint (- py axis) (px axis) in
  let '(minLen, maxLen, minWid, maxWid) :=
    fold_left
      (fun (st : float * float * float * float) (p : Point) =>
         let '(minLen, maxLen, minWid, maxWid) := st in
         let projLen := px p * px axis + py p * py axis in
         let projWid := px p * px perp + py p * py perp in
         (Num.min minLen projLen, Num.max maxLen projLen,
          Num.min minWid projWid, Num.max maxWid projWid))
      poly (infinity, neg_infinity, infinity, neg_infinity) in
  mkOBB (maxLen - minLen) (maxWid - minWid) axis
    (mkPoint
       (px axis * ((minLen + maxLen) / 2) + px perp * ((minWid + maxWid) / 2))
       (py axis * ((minLen + maxLen) / 2) + py perp * ((minWid + maxWid) / 2))).

End Boxes.

(** ** The generation parameters read by the modelled code (types.ts) *)

Record GenerationParams : Type := mkParams {
  width : float;
  height : float;
  minBuildingArea : float;
  maxBuildingArea : float;
  minEdgeLength : float;
  minAngle : float;
  buildingIrregularity : float;
  fixedBuildingDepth : float;
}.

(** [Math.random()]: the [k]-th call returns [rnd k]; code that draws
    random numbers threads the count of calls made so far. *)
Definition Random : Type := nat -> float.

(** ** BuildingGenerator.ts *)

Module BuildingGenerator.

Section Subdivide.

Context {M : MathLib}.
Variable params : GenerationParams.
Variable rnd : Random.

(** A road segment [{p1, p2}]. *)
Definition Road : Type := (Point * Point)%type.

(** [x ** 2] *)
Definition sq (x : float) : float := x * x.

Definition distToSegment (p v w : Point) : float :=
  let l2 := sq (px v - px w) + sq (py v - py w) in
  if l2 =? 0 then hypot (px p - px v) (py p - py v)
  else
    let t := Num.max 0
               (Num.min 1 (((px p - px v) * (px w - px v)
                            + (py p - py v) * (py w - py v)) / l2)) in
    hypot (px p - (px v + t * (px w - px v)))
          (py p - (py v + t * (py w - py v))).

(** The road nearest to [polyCenter], with its distance; [None] and
    [Infinity] when no road is nearer than [Infinity]. *)
Definition nearestRoad (polyCenter : Point) (roads : list Road)
  : option Road * float :=
  fold_left
    (fun (st : option Road * float) (r : Road) =>
       let d := distToSegment polyCenter (fst r) (snd r) in
       if d <? snd st then (Some r, d) else st)
    roads (None, infinity).

(** [smartSubdivide(poly, roads, results, depth)]: [results] and the number
    [k] of random draws are threaded.  [fuel] bounds the recursion, which the
    source bounds by [depth > 10]. *)
Fixpoint smartSubdivide_fuel (fuel : nat) (poly : list Point)
  (roads : list Road) (results : list (list Point)) (depth : nat) (k : nat)
  : list (list Point) * nat :=
  match fuel with
  | O => (results ++ [poly], k)
  | S fuel' =>
      if (10 <? depth)%nat then (results ++ [poly], k)
      else
        let area := calculatePolygonArea poly in
        let obb := getOBB poly in
        if area <? maxBuildingArea params * 1.5 then (results ++ [poly], k)
        else
          let '(bestEdge, minDist) := nearestRoad (obb_center obb) roads in
          let aligned :=
            match bestEdge with
            | Some r =>
                if minDist <? Num.max (obb_width obb) (obb_length obb)
                then Some r else None
            | None => None
            end in
          let splitAxis :=
            match aligned with
            | Some r =>
                let dx := px (snd r) - px (fst r) in
                let dy := py (snd r) - py (fst r) in
                let len := hypot dx dy in
                mkPoint (dx / len) (dy / len)
            | None =>
                if obb_length obb >? obb_width obb
                then mkPoint (px (obb_axis obb)) (py (obb_axis obb))
                else mkPoint (- py (obb_axis obb)) (px (obb_axis obb))
            end in
          let irregularity := buildingIrregularity params in
          let offset := (rnd k - 0.5) * (obb_length obb * 0.2 * irregularity) in
          let k := S k in
          let splitPoint :=
            mkPoint (px (obb_center obb) + px splitAxis * offset)
                    (py (obb_center obb) + py splitAxis * offset) in
          let '(p1, p2) := splitPolygon poly splitPoint splitAxis in
          let '(results, k) :=
            if (2 <? length p1)%nat && (calculatePolygonArea p1 >? 10)
            then smartSubdivide_fuel fuel' p1 roads results (depth + 1) k
            else (results, k) in
          if (2 <? length p2)%nat && (calculatePolygonArea p2 >? 10)
          then smartSubdivide_fuel fuel' p2 roads results (depth + 1) k
          else (results, k)
  end.

Definition smartSubdivide (poly : list Point) (roads : list Road)
  (results : list (list Point)) (depth : nat) (k : nat)
  : list (list Point) * nat :=
  smartSubdivide_fuel (12 - depth) poly roads results depth k.

End Subdivide.

End BuildingGenerator.

(** C8. For every polygon whose area is strictly below
    [1.5 * maxBuildingArea] and every list of road segments,
    [smartSubdivide] at depth 0 yields exactly one lot, the input polygon
    itself, and draws no random number. *)
Theorem smartSubdivide_small_polygon (M : MathLib) (params : GenerationParams)
  (rnd : Random) (poly : list Point) (roads : list BuildingGenerator.Road)
  (k : nat) :
  (calculatePolygonArea poly <? maxBuildingArea params * 1.5) = true ->
  BuildingGenerator.smartSubdivide params rnd poly roads [] 0 k = ([poly], k).
Proof.
  intros Harea. unfold BuildingGenerator.smartSubdivide. simpl.
  rewrite Harea. reflexivity.
Qed.

Definition testParams : GenerationParams :=
  {| width := 500; height := 500; minBuildingArea := 64;
     maxBuildingArea := 625; minEdgeLength := 4; minAngle := 30;
     buildingIrregularity := 0.2; fixedBuildingDepth := 15 |}.

Lemma smartSubdivide_small_polygon_witness :
  @BuildingGenerator.smartSubdivide RefMath.math testParams (fun _ => 0.5)
    square20 [(mkPoint 0 0, mkPoint 20 0)] [] 0 0 = ([square20], 0%nat).
Proof.
  apply (@smartSubdivide_small_polygon RefMath.math testParams).
  vm_compute. reflexivity.
Defined.

(** ** BuildingGenerator.ts: placement and the spatial hash *)

Record Building : Type := mkBuilding {
  b_id : string;
  b_points : list Point;
  b_centroid : Point;
}.

Module Grid.

(** The map key [x,y] is the string of two numbers.  Two numbers print to
    the same string exactly when they are the same value, and the two zeros
    both print as [0]: the key of a number is its value, with the sign of
    zero dropped. *)
Definition key (x : float) : spec_float :=
  match Prim2SF x with
  | S754_zero _ => S754_zero false
  | v => v
  end.

Definition sf_eqb (a b : spec_float) : bool :=
  match a, b with
  | S754_zero s, S754_zero s' => Bool.eqb s s'
  | S754_infinity s, S754_infinity s' => Bool.eqb s s'
  | S754_nan, S754_nan => true
  | S754_finite s m e, S754_finite s' m' e' =>
      Bool.eqb s s' && Pos.eqb m m' && Z.eqb e e'
  | _, _ => false
  end.

Lemma sf_eqb_eq (a b : spec_float) : sf_eqb a b = true <-> a = b.
Proof.
  destruct a as [s|s| |s m e], b as [s'|s'| |s' m' e']; simpl;
    try (split; [discriminate|intros [=]]).
  - rewrite Bool.eqb_true_iff. split; [intros ->|intros [= ->]]; reflexivity.
  - rewrite Bool.eqb_true_iff. split; [intros ->|intros [= ->]]; reflexivity.
  - split; reflexivity.
  - rewrite !andb_true_iff, Bool.eqb_true_iff, Pos.eqb_eq, Z.eqb_eq.
    split; [intros [[-> ->] ->]|intros [= -> -> ->]]; auto.
Qed.

Definition Cell : Type := (spec_float * spec_float)%type.

Definition cell_eqb (a b : Cell) : bool :=
  sf_eqb (fst a) (fst b) && sf_eqb (snd a) (snd b).

Lemma cell_eqb_eq (a b : Cell) : cell_eqb a b = true <-> a = b.
Proof.
  destruct a as [a1 a2], b as [b1 b2]. unfold cell_eqb. simpl.
  rewrite andb_true_iff, !sf_eqb_eq.
  split; [intros [-> ->]|intros [= -> ->]]; auto.
Qed.

(** [Map<string, Building[]>], in insertion order. *)
Definition t : Type := list (Cell * list Building).

(** [grid.get(key)], the empty list for a key that is not set. *)
Fixpoint get (g : t) (c : Cell) : list Building :=
  match g with
  | [] => []
  | (c', bs) :: g' => if cell_eqb c' c then bs else get g' c
  end.

(** [if (!grid.has(k)) grid.set(k, []); grid.get(k).push(b)] *)
Fixpoint push (g : t) (c : Cell) (b : Building) : t :=
  match g with
  | [] => [(c, [b])]
  | (c', bs) :: g' =>
      if cell_eqb c' c then (c', bs ++ [b]) :: g' else (c', bs) :: push g' c b
  end.

Lemma get_push (g : t) (c c' : Cell) (b : Building) :
  get (push g c b) c' = if cell_eqb c c' then get g c' ++ [b] else get g c'.
Proof.
  induction g as [|[c0 bs] g IH]; simpl.
  - destruct (cell_eqb c c'); reflexivity.
  - destruct (cell_eqb c0 c) eqn:E0; simpl.
    + apply cell_eqb_eq in E0. subst c0.
      destruct (cell_eqb c c'); reflexivity.
    + destruct (cell_eqb c0 c') eqn:E1; [|exact IH].
      destruct (cell_eqb c c') eqn:E2; [|reflexivity].
      apply cell_eqb_eq in E1, E2. subst c0 c'.
      assert (cell_eqb c c = true) by (apply cell_eqb_eq; reflexivity).
      congruence.
Qed.

Definition gridSize : float := 50.

(** [Math.floor(v / this.buildingGridSize)] *)
Definition index (v : float) : float := Num.floor (v / gridSize).

(** The loop variable of [for (let x = lo; x <= hi; x++)] after [n]
    increments.  An increment is the addition of 1 on numbers: from
    [2^53] on it may leave the number as it is. *)
Fixpoint advance (n : nat) (x : float) : float :=
  match n with
  | O => x
  | S n' => advance n' (x + 1)
  end.

(** The loop started at [x] enters its body for the [n]-th time after the
    first one: the test [x <= hi] held [n + 1] times. *)
Fixpoint reaches (n : nat) (x hi : float) : bool :=
  (x <=? hi)
  && match n with
     | O => true
     | S n' => reaches n' (x + 1) hi
     end.

(** The cells that the nested loops over a bounding box enter. *)
Definition covers (bb : BoundingBox) (c : Cell) : Prop :=
  exists i j,
    reaches i (index (minX bb)) (index (maxX bb)) = true
    /\ reaches j (index (minY bb)) (index (maxY bb)) = true
    /\ c = (key (advance i (index (minX bb))),
            key (advance j (index (minY bb)))).

End Grid.

Module Placement.

Record State : Type := mkState {
  buildings : list Building;
  courtyards : list Building;
  buildingIdCounter : nat;
  buildingGrid : Grid.t;
  lastStepBuildingIds : list string;
}.

(** [reset()] *)
Definition reset : State := mkState [] [] 0 [] [].

Definition aabbDisjoint (bb nbb : BoundingBox) : bool :=
  (minX bb >? maxX nbb) || (maxX bb <? minX nbb)
  || (minY bb >? maxY nbb) || (maxY bb <? minY nbb).

(** The detailed check of [checkCollision] against one neighbour: after the
    bounding-box filter, some vertex of one polygon inside the other. *)
Definition collides (poly : list Point) (neighbor : Building) : bool :=
  if aabbDisjoint (getBoundingBox poly) (getBoundingBox (b_points neighbor))
  then false
  else existsb (fun p => pointInPolygon p (b_points neighbor)) poly
       || existsb (fun p => pointInPolygon p poly) (b_points neighbor).

(** The inner loop [for (let y = minY; y <= maxY; y++)] of
    [checkCollision], in the column [x] and from [y] on.  [Some true] is
    [return true], [Some false] the end of the loop, and [None] a loop that
    is not over after [fuel] iterations. *)
Fixpoint scanColumn (fuel : nat) (grid : Grid.t) (poly : list Point)
  (x y maxY : float) : option bool :=
  if y <=? maxY then
    match fuel with
    | O => None
    | S fuel' =>
        if existsb (collides poly) (Grid.get grid (Grid.key x, Grid.key y))
        then Some true
        else scanColumn fuel' grid poly x (y + 1) maxY
    end
  else Some false.

(** The outer loop [for (let x = minX; x <= maxX; x++)], from [x] on; each
    inner loop is given [inner] iterations. *)
Fixpoint scanGrid (fuel inner : nat) (grid : Grid.t) (poly : list Point)
  (x maxX minY maxY : float) : option bool :=
  if x <=? maxX then
    match fuel with
    | O => None
    | S fuel' =>
        match scanColumn inner grid poly x minY maxY with
        | Some true => Some true
        | Some false => scanGrid fuel' inner grid poly (x + 1) maxX minY maxY
        | None => None
        end
    end
  else Some false.

(** [checkCollision(poly)], every loop within [fuel] iterations. *)
Definition checkCollision (fuel : nat) (s : State) (poly : list Point)
  : option bool :=
  let bb := getBoundingBox poly in
  scanGrid fuel fuel (buildingGrid s) poly
           (Grid.index (minX bb)) (Grid.index (maxX bb))
           (Grid.index (minY bb)) (Grid.index (maxY bb)).

(** The two loops of [addBuildingToGrid(b)]. *)
Fixpoint pushColumn (fuel : nat) (g : Grid.t) (b : Building)
  (x y maxY : float) : option Grid.t :=
  if y <=? maxY then
    match fuel with
    | O => None
    | S fuel' =>
        pushColumn fuel' (Grid.push g (Grid.key x, Grid.key y) b) b x (y + 1)
                   maxY
    end
  else Some g.

Fixpoint pushGrid (fuel inner : nat) (g : Grid.t) (b : Building)
  (x maxX minY maxY : float) : option Grid.t :=
  if x <=? maxX then
    match fuel with
    | O => None
    | S fuel' =>
        match pushColumn inner g b x minY maxY with
        | Some g' => pushGrid fuel' inner g' b (x + 1) maxX minY maxY
        | None => None
        end
    end
  else Some g.

Definition addBuildingToGrid (fuel : nat) (g : Grid.t) (b : Building)
  : option Grid.t :=
  let bb := getBoundingBox (b_points b) in
  pushGrid fuel fuel g b (Grid.index (minX bb)) (Grid.index (maxX bb))
           (Grid.index (minY bb)) (Grid.index (maxY bb)).

Definition decimal (n : nat) : string :=
  NilZero.string_of_uint (Nat.to_uint n).

Definition newBuilding (s : State) (points : list Point) (isBuilding : bool)
  : Building :=
  mkBuilding ((if isBuilding then "b_" else "c_") ++ decimal (buildingIdCounter s))
             points (calculateCentroid points).

(** [addBuilding(points, isBuilding)]; [None] when a grid loop is not over
    after [fuel] iterations. *)
Definition addBuilding (fuel : nat) (s : State) (points : list Point)
  (isBuilding : bool) : option State :=
  if isBuilding then
    match checkCollision fuel s points with
    | None => None
    | Some true => Some s
    | Some false =>
        let b := newBuilding s points true in
        match addBuildingToGrid fuel (buildingGrid s) b with
        | None => None
        | Some g =>
            Some (mkState (buildings s ++ [b]) (courtyards s)
                          (S (buildingIdCounter s)) g
                          (lastStepBuildingIds s ++ [b_id b]))
        end
    end
  else
    let b := newBuilding s points false in
    Some (mkState (buildings s) (courtyards s ++ [b])
                  (S (buildingIdCounter s)) (buildingGrid s)
                  (lastStepBuildingIds s ++ [b_id b])).

(** A sequence of placements, each a polygon and its [isBuilding] flag.  The
    sequence returns when some [fuel] gives a state. *)
Fixpoint place (fuel : nat) (s : State) (calls : list (list Point * bool))
  : option State :=
  match calls with
  | [] => Some s
  | (points, isBuilding) :: rest =>
      match addBuilding fuel s points isBuilding with
      | None => None
      | Some s' => place fuel s' rest
      end
  end.

End Placement.

(** ** Building placement: what the collision check guarantees *)

Lemma existsb_false_In {A} (f : A -> bool) (l : list A) (x : A) :
  existsb f l = false -> In x l -> f x = false.
Proof.
  intros H Hin. destruct (f x) eqn:E; [|reflexivity].
  assert (existsb f l = true) by (apply existsb_exists; eauto). congruence.
Qed.

Module PlacementFacts.

Import Placement.

(** Two polygons have overlapping interiors when some point is strictly
    inside both, as [pointInPolygon] judges it. *)
Definition interiorsOverlap (p q : list Point) : Prop :=
  exists pt, pointInPolygon pt p = true /\ pointInPolygon pt q = true.

(** The grid loops over the bounding boxes of the two buildings enter a
    common cell. *)
Definition sharesCell (b b' : Building) : Prop :=
  exists c, Grid.covers (getBoundingBox (b_points b)) c
            /\ Grid.covers (getBoundingBox (b_points b')) c.

(** Every later building was checked against every earlier one. *)
Definition checkedPairwise (bs : list Building) : Prop :=
  forall pre b post, bs = pre ++ b :: post ->
    forall b', In b' pre -> sharesCell b' b -> collides (b_points b) b' = false.

(** Every building sits in each cell of its bounding box. *)
Definition hashed (s : State) : Prop :=
  forall b c, In b (buildings s) ->
    Grid.covers (getBoundingBox (b_points b)) c ->
    In b (Grid.get (buildingGrid s) c).

(** *** The loops that end *)

Lemma reaches_start (n : nat) (x hi : float) :
  Grid.reaches n x hi = true -> (x <=? hi) = true.
Proof. destruct n; simpl; intros H; apply andb_prop in H; apply H. Qed.

(** The inner loop of [addBuildingToGrid], once over, has pushed the
    building into the cells it entered and nowhere else. *)
Lemma pushColumn_spec (fuel : nat) (g g' : Grid.t) (b : Building)
  (x y maxY : float) :
  pushColumn fuel g b x y maxY = Some g' ->
  forall c b0,
    In b0 (Grid.get g' c)
    <-> In b0 (Grid.get g c)
        \/ (b0 = b /\ exists j, Grid.reaches j y maxY = true
                                /\ c = (Grid.key x, Grid.key (Grid.advance j y))).
Proof.
  revert g y. induction fuel as [|fuel IH]; intros g y; simpl.
  - destruct (y <=? maxY) eqn:E; [discriminate|]. intros [= <-] c b0.
    split; [auto|]. intros [H|(_ & j & Hj & _)]; [exact H|].
    apply reaches_start in Hj. congruence.
  - destruct (y <=? maxY) eqn:E.
    + intros H c b0. rewrite (IH _ _ H c b0), Grid.get_push. split.
      * intros [Hin|(-> & j & Hj & ->)].
        -- destruct (Grid.cell_eqb (Grid.key x, Grid.key y) c) eqn:Ec;
             [|left; exact Hin].
           apply in_app_or in Hin. destruct Hin as [Hin|[<-|[]]];
             [left; exact Hin|right].
           split; [reflexivity|]. exists 0%nat. simpl. rewrite E.
           apply Grid.cell_eqb_eq in Ec. auto.
        -- right. split; [reflexivity|]. exists (S j). simpl. rewrite E. auto.
      * intros [Hin|(-> & j & Hj & ->)].
        -- left. destruct (Grid.cell_eqb (Grid.key x, Grid.key y) c);
             [apply in_or_app; left|]; exact Hin.
        -- destruct j as [|j]; simpl in *.
           ++ left.
              rewrite (proj2 (Grid.cell_eqb_eq (Grid.key x, Grid.key y) _)
                         eq_refl).
              apply in_or_app. right. left. reflexivity.
           ++ right. split; [reflexivity|]. exists j.
              rewrite E in Hj. auto.
    + intros [= <-] c b0. split; [auto|].
      intros [H|(_ & j & Hj & _)]; [exact H|].
      apply reaches_start in Hj. congruence.
Qed.

Lemma pushGrid_spec (fuel inner : nat) (g g' : Grid.t) (b : Building)
  (x maxX minY maxY : float) :
  pushGrid fuel inner g b x maxX minY maxY = Some g' ->
  forall c b0,
    In b0 (Grid.get g' c)
    <-> In b0 (Grid.get g c)
        \/ (b0 = b
            /\ exists i j, Grid.reaches i x maxX = true
                           /\ Grid.reaches j minY maxY = true
                           /\ c = (Grid.key (Grid.advance i x),
                                   Grid.key (Grid.advance j minY))).
Proof.
  revert g x. induction fuel as [|fuel IH]; intros g x; simpl.
  - destruct (x <=? maxX) eqn:E; [discriminate|]. intros [= <-] c b0.
    split; [auto|]. intros [H|(_ & i & j & Hi & _)]; [exact H|].
    apply reaches_start in Hi. congruence.
  - destruct (x <=? maxX) eqn:E.
    + destruct (pushColumn inner g b x minY maxY) as [g1|] eqn:Ecol;
        [|discriminate].
      intros H c b0.
      rewrite (IH _ _ H c b0), (pushColumn_spec _ _ _ _ _ _ Ecol c b0). split.
      * intros [[Hin|(-> & j & Hj & ->)]|(-> & i & j & Hi & Hj & ->)].
        -- left. exact Hin.
        -- right. split; [reflexivity|]. exists 0%nat, j. simpl. rewrite E.
           auto.
        -- right. split; [reflexivity|]. exists (S i), j. simpl. rewrite E.
           auto.
      * intros [Hin|(-> & i & j & Hi & Hj & ->)]; [auto|].
        destruct i as [|i]; simpl in *.
        -- left. right. split; [reflexivity|]. exists j. auto.
        -- right. split; [reflexivity|]. exists i, j. rewrite E in Hi. auto.
    + intros [= <-] c b0. split; [auto|].
      intros [H|(_ & i & j & Hi & _)]; [exact H|].
      apply reaches_start in Hi. congruence.
Qed.

(** The inner loop of [checkCollision], once over with [false], met no
    colliding neighbour in any cell it entered. *)
Lemma scanColumn_false (fuel : nat) (grid : Grid.t) (poly : list Point)
  (x y maxY : float) :
  scanColumn fuel grid poly x y maxY = Some false ->
  forall j, Grid.reaches j y maxY = true ->
    existsb (collides poly)
            (Grid.get grid (Grid.key x, Grid.key (Grid.advance j y))) = false.
Proof.
  revert y. induction fuel as [|fuel IH]; intros y; simpl.
  - destruct (y <=? maxY) eqn:E; [discriminate|]. intros _ j Hj.
    apply reaches_start in Hj. congruence.
  - destruct (y <=? maxY) eqn:E.
    + destruct (existsb (collides poly)
                  (Grid.get grid (Grid.key x, Grid.key y))) eqn:Ec;
        [discriminate|].
      intros H [|j] Hj; simpl in *; [exact Ec|].
      rewrite E in Hj. exact (IH _ H j Hj).
    + intros _ j Hj. apply reaches_start in Hj. congruence.
Qed.

Lemma scanGrid_false (fuel inner : nat) (grid : Grid.t) (poly : list Point)
  (x maxX minY maxY : float) :
  scanGrid fuel inner grid poly x maxX minY maxY = Some false ->
  forall i j, Grid.reaches i x maxX = true ->
    Grid.reaches j minY maxY = true ->
    existsb (collides poly)
            (Grid.get grid (Grid.key (Grid.advance i x),
                            Grid.key (Grid.advance j minY))) = false.
Proof.
  revert x. induction fuel as [|fuel IH]; intros x; simpl.
  - destruct (x <=? maxX) eqn:E; [discriminate|]. intros _ i j Hi.
    apply reaches_start in Hi. congruence.
  - destruct (x <=? maxX) eqn:E.
    + destruct (scanColumn inner grid poly x minY maxY) as [[|]|] eqn:Ecol;
        try discriminate.
      intros H [|i] j Hi Hj; simpl in *.
      * exact (scanColumn_false _ _ _ _ _ _ Ecol j Hj).
      * rewrite E in Hi. exact (IH _ H i j Hi Hj).
    + intros _ i j Hi. apply reaches_start in Hi. congruence.
Qed.

(** *** More fuel changes no result *)

Lemma scanColumn_mono (fuel fuel' : nat) (grid : Grid.t) (poly : list Point)
  (x y maxY : float) (r : bool) :
  (fuel <= fuel')%nat ->
  scanColumn fuel grid poly x y maxY = Some r ->
  scanColumn fuel' grid poly x y maxY = Some r.
Proof.
  revert fuel' y. induction fuel as [|fuel IH]; intros fuel' y Hle; simpl.
  - destruct (y <=? maxY) eqn:E; [discriminate|].
    intros H. destruct fuel'; simpl; rewrite E; exact H.
  - destruct fuel' as [|fuel']; [lia|]. simpl.
    destruct (y <=? maxY); [|auto].
    destruct (existsb _ _); [auto|]. apply IH. lia.
Qed.

Lemma scanGrid_mono (fuel fuel' inner inner' : nat) (grid : Grid.t)
  (poly : list Point) (x maxX minY maxY : float) (r : bool) :
  (fuel <= fuel')%nat -> (inner <= inner')%nat ->
  scanGrid fuel inner grid poly x maxX minY maxY = Some r ->
  scanGrid fuel' inner' grid poly x maxX minY maxY = Some r.
Proof.
  intros Hle Hin. revert fuel' x Hle.
  induction fuel as [|fuel IH]; intros fuel' x Hle; simpl.
  - destruct (x <=? maxX) eqn:E; [discriminate|].
    intros H. destruct fuel'; simpl; rewrite E; exact H.
  - destruct fuel' as [|fuel']; [lia|]. simpl.
    destruct (x <=? maxX); [|auto].
    destruct (scanColumn inner grid poly x minY maxY) as [c|] eqn:Ecol;
      [|discriminate].
    rewrite (scanColumn_mono _ _ _ _ _ Hin Ecol).
    destruct c; [auto|]. apply IH. lia.
Qed.

Lemma pushColumn_mono (fuel fuel' : nat) (g g' : Grid.t) (b : Building)
  (x y maxY : float) :
  (fuel <= fuel')%nat ->
  pushColumn fuel g b x y maxY = Some g' ->
  pushColumn fuel' g b x y maxY = Some g'.
Proof.
  revert fuel' g y. induction fuel as [|fuel IH]; intros fuel' g y Hle; simpl.
  - destruct (y <=? maxY) eqn:E; [discriminate|].
    intros H. destruct fuel'; simpl; rewrite E; exact H.
  - destruct fuel' as [|fuel']; [lia|]. simpl.
    destruct (y <=? maxY); [|auto]. apply IH. lia.
Qed.

Lemma pushGrid_mono (fuel fuel' inner inner' : nat) (g g' : Grid.t)
  (b : Building) (x maxX minY maxY : float) :
  (fuel <= fuel')%nat -> (inner <= inner')%nat ->
  pushGrid fuel inner g b x maxX minY maxY = Some g' ->
  pushGrid fuel' inner' g b x maxX minY maxY = Some g'.
Proof.
  intros Hle Hin. revert fuel' g x Hle.
  induction fuel as [|fuel IH]; intros fuel' g x Hle; simpl.
  - destruct (x <=? maxX) eqn:E; [discriminate|].
    intros H. destruct fuel'; simpl; rewrite E; exact H.
  - destruct fuel' as [|fuel']; [lia|]. simpl.
    destruct (x <=? maxX); [|auto].
    destruct (pushColumn inner g b x minY maxY) as [g1|] eqn:Ecol;
      [|discriminate].
    rewrite (pushColumn_mono _ _ _ _ _ Hin Ecol). apply IH. lia.
Qed.

Lemma addBuilding_mono (fuel fuel' : nat) (s s' : State)
  (points : list Point) (isBuilding : bool) :
  (fuel <= fuel')%nat ->
  addBuilding fuel s points isBuilding = Some s' ->
  addBuilding fuel' s points isBuilding = Some s'.
Proof.
  intros Hle. unfold addBuilding, checkCollision, addBuildingToGrid.
  destruct isBuilding; [|auto].
  destruct (scanGrid fuel fuel _ _ _ _ _ _) as [c|] eqn:Ec; [|discriminate].
  rewrite (scanGrid_mono _ _ _ _ _ _ Hle Hle Ec).
  destruct c; [auto|].
  destruct (pushGrid fuel fuel _ _ _ _ _ _) as [g|] eqn:Eg; [|discriminate].
  rewrite (pushGrid_mono _ _ _ _ _ _ Hle Hle Eg). auto.
Qed.

(** A sequence that returns within [fuel] iterations per loop returns the
    same state within any larger number. *)
Lemma place_mono (fuel fuel' : nat) (calls : list (list Point * bool))
  (s s' : State) :
  (fuel <= fuel')%nat ->
  place fuel s calls = Some s' -> place fuel' s calls = Some s'.
Proof.
  intros Hle. revert s.
  induction calls as [|[points isBuilding] calls IH]; simpl; intros s;
    [auto|].
  destruct (addBuilding fuel s points isBuilding) as [s1|] eqn:E;
    [|discriminate].
  rewrite (addBuilding_mono _ _ _ Hle E). apply IH.
Qed.

(** *** The invariant of placement *)

Lemma addBuilding_invariant (fuel : nat) (s s' : State) (points : list Point)
  (isBuilding : bool) :
  addBuilding fuel s points isBuilding = Some s' ->
  hashed s /\ checkedPairwise (buildings s) ->
  hashed s' /\ checkedPairwise (buildings s').
Proof.
  unfold addBuilding. intros Hadd [Hh Hp].
  destruct isBuilding; [|injection Hadd as <-; split; assumption].
  destruct (checkCollision fuel s points) as [[|]|] eqn:Hcc; try discriminate.
  { injection Hadd as <-. split; assumption. }
  destruct (addBuildingToGrid _ _ _) as [g|] eqn:Hg; [|discriminate].
  injection Hadd as <-. simpl.
  unfold addBuildingToGrid in Hg. unfold checkCollision in Hcc.
  change (b_points (newBuilding s points true)) with points in Hg.
  cbv zeta in Hg, Hcc.
  pose proof (pushGrid_spec _ _ _ _ _ _ _ _ Hg) as Hspec.
  pose proof (scanGrid_false _ _ _ _ _ _ _ _ Hcc) as Hscan.
  split.
  - intros b c Hin Hc. simpl in *. apply Hspec.
    apply in_app_iff in Hin. destruct Hin as [Hin|[<-|[]]].
    + left. apply Hh; assumption.
    + right. split; [reflexivity|]. exact Hc.
  - intros pre b post E b' Hb' Hshare.
    destruct post as [|p post].
    + apply app_inj_tail in E. destruct E as [<- <-]. simpl.
      destruct Hshare as (c & Hc' & (i & j & Hi & Hj & Ec)).
      simpl in Hi, Hj, Ec.
      pose proof (Hscan i j Hi Hj) as Hcell. rewrite <- Ec in Hcell.
      eapply existsb_false_In; [exact Hcell|]. apply Hh; assumption.
    + assert (E' : exists post', buildings s = pre ++ b :: post').
      { destruct (exists_last (l := p :: post)) as (post' & z & Ez);
          [discriminate|].
        rewrite Ez in E. exists post'.
        change (pre ++ b :: post' ++ [z]) with (pre ++ (b :: post') ++ [z]) in E.
        rewrite app_assoc in E. apply app_inj_tail in E. apply E. }
      destruct E' as [post' E']. eapply Hp; eauto.
Qed.

Lemma place_invariant (fuel : nat) (calls : list (list Point * bool))
  (s s' : State) :
  place fuel s calls = Some s' ->
  hashed s /\ checkedPairwise (buildings s) ->
  hashed s' /\ checkedPairwise (buildings s').
Proof.
  revert s. induction calls as [|[points isBuilding] calls IH]; simpl;
    intros s Hplace Hinv.
  - injection Hplace as <-. exact Hinv.
  - destruct (addBuilding fuel s points isBuilding) as [s1|] eqn:Hadd;
      [|discriminate].
    eapply IH; [exact Hplace|]. eapply addBuilding_invariant; eauto.
Qed.

Lemma reset_invariant : hashed reset /\ checkedPairwise (buildings reset).
Proof.
  split.
  - intros b c [].
  - intros pre b post E. destruct pre; discriminate E.
Qed.

End PlacementFacts.

(** The two bars of a plus sign: neither has a vertex inside the other. *)
Definition plusBarH : list Point :=
  [mkPoint 0 4; mkPoint 10 4; mkPoint 10 6; mkPoint 0 6].
Definition plusBarV : list Point :=
  [mkPoint 4 0; mkPoint 6 0; mkPoint 6 10; mkPoint 4 10].

(** C1 (as the code has it). For every sequence of placements that returns,
    that is for which some number of iterations per grid loop is enough,
    every accepted Building was tested against every previously accepted
    Building that shares a spatial-hash cell with it, and passed: their
    bounding boxes are disjoint, or no vertex of either polygon lies inside
    the other. *)
Theorem placement_no_vertex_containment (fuel : nat)
  (calls : list (list Point * bool)) (s : Placement.State) :
  Placement.place fuel Placement.reset calls = Some s ->
  forall pre b post, Placement.buildings s = pre ++ b :: post ->
  forall b', In b' pre -> PlacementFacts.sharesCell b' b ->
    Placement.aabbDisjoint (getBoundingBox (b_points b))
                           (getBoundingBox (b_points b')) = true
    \/ (forall p, In p (b_points b) -> pointInPolygon p (b_points b') = false)
       /\ (forall p, In p (b_points b') -> pointInPolygon p (b_points b) = false).
Proof.
  intros Hplace pre b post E b' Hb' Hshare.
  destruct (@PlacementFacts.place_invariant fuel calls _ s Hplace
              PlacementFacts.reset_invariant) as [_ Hp].
  specialize (Hp pre b post E b' Hb' Hshare).
  unfold Placement.collides in Hp.
  destruct (Placement.aabbDisjoint _ _); [left; reflexivity|right].
  apply orb_false_iff in Hp. destruct Hp as [H1 H2].
  split; intros p Hin;
    [exact (existsb_false_In _ _ _ H1 Hin)
    |exact (existsb_false_In _ _ _ H2 Hin)].
Qed.

(** C1 as stated fails: the two bars of a plus sign are both accepted, and
    the point (5,5) is inside both. *)
Lemma placement_overlap_accepted :
  ~ (forall (fuel : nat) (calls : list (list Point * bool))
       (s : Placement.State),
        Placement.place fuel Placement.reset calls = Some s ->
        forall pre b post, Placement.buildings s = pre ++ b :: post ->
        forall b', In b' pre ->
          ~ PlacementFacts.interiorsOverlap (b_points b') (b_points b)).
Proof.
  intros H.
  pose (s := Placement.place 1 Placement.reset
               [(plusBarH, true); (plusBarV, true)]).
  assert (E : s = Some (Placement.mkState
            [mkBuilding "b_0" plusBarH (mkPoint 5 5);
             mkBuilding "b_1" plusBarV (mkPoint 5 5)] [] 2
            [((S754_zero false, S754_zero false),
              [mkBuilding "b_0" plusBarH (mkPoint 5 5);
               mkBuilding "b_1" plusBarV (mkPoint 5 5)])]
            ["b_0"%string; "b_1"%string])) by (vm_compute; reflexivity).
  refine (H _ _ _ E
            [mkBuilding "b_0" plusBarH (mkPoint 5 5)]
            (mkBuilding "b_1" plusBarV (mkPoint 5 5)) [] eq_refl
            (mkBuilding "b_0" plusBarH (mkPoint 5 5)) (or_introl eq_refl) _).
  exists (mkPoint 5 5). split; vm_compute; reflexivity.
Qed.

Lemma placement_no_vertex_containment_witness :
  Placement.aabbDisjoint (getBoundingBox plusBarV) (getBoundingBox plusBarH)
  = true
  \/ (forall p, In p plusBarV -> pointInPolygon p plusBarH = false)
     /\ (forall p, In p plusBarH -> pointInPolygon p plusBarV = false).
Proof.
  refine (@placement_no_vertex_containment 1
            [(plusBarH, true); (plusBarV, true)] _ _
            [mkBuilding "b_0" plusBarH (mkPoint 5 5)]
            (mkBuilding "b_1" plusBarV (mkPoint 5 5)) [] _
            (mkBuilding "b_0" plusBarH (mkPoint 5 5)) (or_introl eq_refl) _).
  - vm_compute. reflexivity.
  - reflexivity.
  - exists (S754_zero false, S754_zero false).
    split; exists 0%nat, 0%nat;
      (split; [vm_compute; reflexivity|]);
      (split; [vm_compute; reflexivity|vm_compute; reflexivity]).
Defined.

(** ** The road graph (types.ts, CityGenerator.ts) *)

Record Node : Type := mkNode {
  n_x : float;
  n_y : float;
  n_id : string;
  connections : list string;
}.

Record Edge : Type := mkEdge {
  e_id : string;
  startNodeId : string;
  endNodeId : string;
}.

(** [nodes: Map<string, Node>] in insertion order, [edges: Edge[]] and
    [bridgeEdgeIds: Set<string>]. *)
Record Graph : Type := mkGraph {
  nodes : list (string * Node);
  edges : list Edge;
  bridgeEdgeIds : list string;
}.

(** [Set<string>] and [Map<string, _>] as lists. *)
Module StrSet.

Definition mem (x : string) (s : list string) : bool :=
  existsb (String.eqb x) s.

Definition add (x : string) (s : list string) : list string :=
  if mem x s then s else s ++ [x].

Definition addAll (xs : list string) (s : list string) : list string :=
  fold_left (fun s x => add x s) xs s.

Fixpoint lookup {A : Type} (k : string) (m : list (string * A)) : option A :=
  match m with
  | [] => None
  | (k', v) :: m' => if String.eqb k' k then Some v else lookup k m'
  end.

End StrSet.

Definition nodePoint (n : Node) : Point := mkPoint (n_x n) (n_y n).

(** [nodes.get(id)!]: the source assumes that the id resolves and fails
    with a TypeError otherwise; the model reads NaN coordinates then.  All
    ids of the edges and connection lists of the graphs built by [addNode]
    and [addEdge] resolve. *)
Definition getNode (g : Graph) (id : string) : Node :=
  match StrSet.lookup id (nodes g) with
  | Some n => n
  | None => mkNode nan nan id []
  end.

(** The half-edge key [u->v]. *)
Definition halfEdgeKey (u v : string) : string := (u ++ "->" ++ v)%string.

(** [Array.prototype.sort] with a comparator: a stable sort that puts [x]
    before [y] when [cmp x y < 0]. *)
Fixpoint sortInsert {A : Type} (cmp : A -> A -> float) (x : A) (l : list A)
  : list A :=
  match l with
  | [] => [x]
  | y :: l' => if cmp x y <? 0 then x :: y :: l' else y :: sortInsert cmp x l'
  end.

Definition sortBy {A : Type} (cmp : A -> A -> float) (l : list A) : list A :=
  fold_left (fun sorted x => sortInsert cmp x sorted) l [].

(** [Array.prototype.findIndex] *)
Fixpoint findIndex {A : Type} (f : A -> bool) (l : list A) : option nat :=
  match l with
  | [] => None
  | x :: l' => if f x then Some 0%nat
               else option_map S (findIndex f l')
  end.

(** ** PlotGenerator.ts *)

Inductive PlotType : Type := URBAN_CORE | SUBURBAN_STRIP.

Record Plot : Type := mkPlot {
  p_id : string;
  p_points : list Point;
  isEnclosed : bool;
  p_area : float;
  roadIds : list string;
  p_type : PlotType;
  halfEdges : list string;
}.

Module PlotGenerator.

Record State : Type := mkState {
  plots : list Plot;
  plotIdCounter : nat;
  occupiedHalfEdges : list string;
}.

(** [reset()] *)
Definition reset : State := mkState [] 0 [].

(** The result of a successful [traceFace]. *)
Record Face : Type := mkFace {
  f_nodes : list string;
  f_edges : list string;
  f_keys : list string;
}.

Section WithGraph.

Context {M : MathLib}.
Variable params : GenerationParams.
Variable isPointInWater : Point -> bool.
Variable cityCenter : Point.
Variable g : Graph.

Definition getEdgeBetween (u v : string) : option Edge :=
  find (fun e =>
          (String.eqb (startNodeId e) u && String.eqb (endNodeId e) v)
          || (String.eqb (startNodeId e) v && String.eqb (endNodeId e) u))
       (edges g).

Definition isBridge (e : Edge) : bool := StrSet.mem (e_id e) (bridgeEdgeIds g).

(** [buildNodeAngleMap()]: for every node, its neighbours with the angle of
    the edge to them, sorted by angle. *)
Definition buildNodeAngleMap : list (string * list (string * float)) :=
  map (fun entry : string * Node =>
         let node := snd entry in
         (fst entry,
          sortBy (fun a b => snd a - snd b)
            (map (fun nid =>
                    let n := getNode g nid in
                    (nid, atan2 (n_y n - n_y node) (n_x n - n_x node)))
                 (connections node))))
      (nodes g).

(** The state of the loop of [traceFace]. *)
Record Walk : Type := mkWalk {
  w_prev : string;
  w_curr : string;
  w_nodes : list string;
  w_edges : list string;
  w_keys : list string;
}.

(** The neighbour that the walk turns to at [curr], coming from [prev]: the
    first one, in angular order, after the direction back to [prev]; the
    walk stops at a node without neighbours. *)
Definition nextNeighbor (nodeAngles : list (string * list (string * float)))
  (w : Walk) : option string :=
  match StrSet.lookup (w_curr w) nodeAngles with
  | None | Some [] => None
  | Some neighbors =>
      let pNode := getNode g (w_prev w) in
      let cNode := getNode g (w_curr w) in
      let angleIn := atan2 (n_y pNode - n_y cNode) (n_x pNode - n_x cNode) in
      let nextIdx :=
        match findIndex (fun n => snd n >? angleIn + 1e-4) neighbors with
        | Some i => i
        | None => 0%nat
        end in
      Some (fst (nth nextIdx neighbors (EmptyString, 0)))
  end.

(** One iteration of the loop body of [traceFace], entered with
    [curr !== startNode]: [None] is [return null]. *)
Definition traceStep (nodeAngles : list (string * list (string * float)))
  (visited : list string) (w : Walk) : option Walk :=
  let pathNodes := w_nodes w ++ [w_curr w] in
  let key := halfEdgeKey (w_prev w) (w_curr w) in
  let pathKeys := w_keys w ++ [key] in
  if StrSet.mem key visited then None
  else
    match nextNeighbor nodeAngles w with
    | None => None
    | Some nextId =>
        match getEdgeBetween (w_curr w) nextId with
        | None => None
        | Some e =>
            if isBridge e then None
            else if String.eqb nextId (w_prev w) then None
            else Some (mkWalk (w_curr w) nextId pathNodes
                              (w_edges w ++ [e_id e]) pathKeys)
        end
    end.

(** [while (curr !== startNode && steps < 1000) { ... }] followed by the
    closing test; [fuel] is [1000 - steps]. *)
Fixpoint traceLoop (fuel : nat) (startNode : string)
  (nodeAngles : list (string * list (string * float)))
  (visited : list string) (w : Walk) : option Face :=
  if String.eqb (w_curr w) startNode then
    Some (mkFace (w_nodes w) (w_edges w)
                 (w_keys w ++ [halfEdgeKey (w_prev w) (w_curr w)]))
  else
    match fuel with
    | O => None
    | S fuel' =>
        match traceStep nodeAngles visited w with
        | None => None
        | Some w' => traceLoop fuel' startNode nodeAngles visited w'
        end
    end.

Definition traceStart (startNode secondNode : string) : Walk :=
  mkWalk startNode secondNode [startNode]
         (match getEdgeBetween startNode secondNode with
          | Some firstE => [e_id firstE]
          | None => []
          end) [].

Definition stepCap : nat := 1000.

Definition traceFace (startNode secondNode : string)
  (nodeAngles : list (string * list (string * float)))
  (visited : list string) : option Face :=
  traceLoop stepCap startNode nodeAngles visited
            (traceStart startNode secondNode).

(** [perpendicularDistance(p, v, w)] of PlotGenerator: distance to the
    infinite line. *)
Definition perpendicularDistance (p v w : Point) : float :=
  let l2 := BuildingGenerator.sq (px v - px w)
            + BuildingGenerator.sq (py v - py w) in
  if l2 =? 0 then hypot (px p - px v) (py p - py v)
  else
    let t := ((px p - px v) * (px w - px v) + (py p - py v) * (py w - py v))
             / l2 in
    let projX := px v + t * (px w - px v) in
    let projY := py v + t * (py w - py v) in
    hypot (px p - projX) (py p - projY).

(** [points.slice(a, b)] *)
Definition slice {A : Type} (l : list A) (a b : nat) : list A :=
  firstn (b - a) (skipn a l).

(** [simplifyPolygon(points, epsilon)], Ramer-Douglas-Peucker.  Both
    recursive calls are on strictly shorter slices; [fuel] bounds the depth
    and the length of [points] is enough. *)
Fixpoint simplifyPolygon_fuel (fuel : nat) (points : list Point)
  (epsilon : float) : list Point :=
  if (length points <? 3)%nat then points
  else
    let start := at_ points 0 in
    let end_ := at_ points (length points - 1) in
    let '(maxDist, index) :=
      fold_left
        (fun (st : float * nat) (i : nat) =>
           let d := perpendicularDistance (at_ points i) start end_ in
           if d >? fst st then (d, i) else st)
        (seq 1 (length points - 2)) (0, 0%nat) in
    if maxDist >? epsilon then
      match fuel with
      | O => [start; end_]
      | S fuel' =>
          let left :=
            simplifyPolygon_fuel fuel' (slice points 0 (index + 1)) epsilon in
          let right :=
            simplifyPolygon_fuel fuel' (skipn index points) epsilon in
          slice left 0 (length left - 1) ++ right
      end
    else [start; end_].

Definition simplifyPolygon (points : list Point) (epsilon : float)
  : list Point :=
  simplifyPolygon_fuel (length points) points epsilon.

Definition decimal (n : nat) : string :=
  NilZero.string_of_uint (Nat.to_uint n).

(** [createEnclosedPlot(nodeIds, edgeIds, keys)] *)
Definition createEnclosedPlot (s : State) (nodeIds edgeIds keys : list string)
  : State :=
  let points := map (fun id => nodePoint (getNode g id)) nodeIds in
  let area := calculatePolygonArea points in
  let mapArea := width params * height params in
  if isPointInWater (calculateCentroid points) then s
  else if (abs area >? mapArea * 0.8) || (abs area <? 50) then s
  else
    let ccwPoints := rev points in
    if isPointInWater (calculateCentroid ccwPoints) then s
    else
      let shrunk := shrinkPolygon ccwPoints 2.0 in
      if (length shrunk <? 3)%nat then s
      else
        let finalArea := abs (calculatePolygonArea shrunk) in
        if finalArea <? 50 then s
        else
          let simple := simplifyPolygon shrunk 1.0 in
          mkState
            (plots s ++
               [mkPlot ("plot_core_" ++ decimal (plotIdCounter s)) simple true
                       finalArea edgeIds URBAN_CORE keys])
            (S (plotIdCounter s))
            (StrSet.addAll keys (occupiedHalfEdges s)).

(** The two directions [[start, end], [end, start]] of an edge. *)
Definition bothDirections (e : Edge) : list (string * string) :=
  [(startNodeId e, endNodeId e); (endNodeId e, startNodeId e)].

(** [detectEnclosedPlots()]; the set [visited] is local to the pass. *)
Definition detectEnclosedPlots (s : State) : State :=
  let nodeAngles := buildNodeAngleMap in
  snd (fold_left
    (fun (st : list string * State) (edge : Edge) =>
       if isBridge edge then st
       else
         fold_left
           (fun (st : list string * State) (uv : string * string) =>
              let '(visited, s) := st in
              let key := halfEdgeKey (fst uv) (snd uv) in
              if StrSet.mem key visited then st
              else if StrSet.mem key (occupiedHalfEdges s) then st
              else
                match traceFace (fst uv) (snd uv) nodeAngles visited with
                | Some result =>
                    if (2 <? length (f_nodes result))%nat then
                      (StrSet.addAll (f_keys result) visited,
                       createEnclosedPlot s (f_nodes result) (f_edges result)
                                          (f_keys result))
                    else st
                | None => st
                end)
           (bothDirections edge) st)
    (edges g) ([], s)).

(** *** Validation *)

Definition segmentsIntersect (p1 p2 p3 p4 : Point) : bool :=
  let ccw (a b c : Point) :=
    (py c - py a) * (px b - px a) >? (py b - py a) * (px c - px a) in
  negb (eqb (ccw p1 p3 p4) (ccw p2 p3 p4))
  && negb (eqb (ccw p1 p2 p3) (ccw p1 p2 p4)).

Definition polygonsIntersect (polyA polyB : list Point) : bool :=
  existsb
    (fun i =>
       let a1 := at_ polyA i in
       let a2 := at_ polyA ((i + 1) mod length polyA) in
       existsb
         (fun j =>
            let b1 := at_ polyB j in
            let b2 := at_ polyB ((j + 1) mod length polyB) in
            segmentsIntersect a1 a2 b1 b2)
         (seq 0 (length polyB)))
    (seq 0 (length polyA)).

Definition boxesApart (bb obb : BoundingBox) : bool :=
  (maxX bb <? minX obb) || (minX bb >? maxX obb)
  || (maxY bb <? minY obb) || (minY bb >? maxY obb).

(** The test of [isValidPlot] against one accepted plot: [true] when the
    plot rejects the candidate's test polygon. *)
Definition clashes (testPoly : list Point) (other : Plot) : bool :=
  if boxesApart (getBoundingBox testPoly) (getBoundingBox (p_points other))
  then false
  else polygonsIntersect testPoly (p_points other)
       || pointInPolygon (at_ testPoly 0) (p_points other)
       || pointInPolygon (at_ (p_points other) 0) testPoly.

(** [isValidPlot(poly)] against the plots accepted so far. *)
Definition isValidPlot (accepted : list Plot) (poly : list Point) : bool :=
  if (length poly <? 3)%nat then false
  else if calculatePolygonArea poly <? 50 then false
  else
    let testPoly := shrinkPolygon poly 0.5 in
    if (length testPoly <? 3)%nat then true
    else negb (existsb (clashes testPoly) accepted).

(** *** Strokes *)

Definition Math_PI : float := 0x1.921fb54442d18p+1.

(** [normalizeAngle(a)].  Each loop runs at most twice on a difference of
    two results of [Math.atan2]; [fuel] bounds the loops. *)
Fixpoint whileAbove (fuel : nat) (a : float) : float :=
  match fuel with
  | O => a
  | S fuel' => if a >? Math_PI then whileAbove fuel' (a - Math_PI * 2) else a
  end.
Fixpoint whileBelow (fuel : nat) (a : float) : float :=
  match fuel with
  | O => a
  | S fuel' => if a <? - Math_PI then whileBelow fuel' (a + Math_PI * 2) else a
  end.
Definition normalizeAngle (a : float) : float :=
  whileBelow 4 (whileAbove 4 a).

(** [findBestAlignment(p1, p2)]: the neighbour of [p2] that best continues
    the direction from [p1] to [p2], within 45 degrees; none at a node of
    degree above 2. *)
Definition findBestAlignment (p1 p2 : string) : option string :=
  match StrSet.lookup p1 (nodes g), StrSet.lookup p2 (nodes g) with
  | Some n1, Some n2 =>
      if (2 <? length (connections n2))%nat then None
      else
        let angleBase := atan2 (n_y n2 - n_y n1) (n_x n2 - n_x n1) in
        fst (fold_left
          (fun (st : option string * float) (candId : string) =>
             if String.eqb candId p1 then st
             else
               let nCand := getNode g candId in
               let angleCand :=
                 atan2 (n_y nCand - n_y n2) (n_x nCand - n_x n2) in
               let diff := abs (normalizeAngle (angleCand - angleBase)) in
               if diff <? 45 * Math_PI / 180 then
                 if diff <? snd st then (Some candId, diff) else st
               else st)
          (connections n2) (None, 1000))
  | _, _ => None
  end.

Definition findBestPredecessor (curr next : string) : option string :=
  findBestAlignment next curr.

Definition findBestContinuation (prev curr : string) : option string :=
  findBestAlignment prev curr.

(** A string result tested by [if (!x) break]: [null] and the empty string
    are both falsy. *)
Definition truthy (x : option string) : option string :=
  match x with
  | Some EmptyString => None
  | _ => x
  end.

(** [getStrokeStart(u, v)]: at most 50 steps back. *)
Fixpoint getStrokeStart_loop (fuel : nat) (occupied : list string)
  (curr next : string) : string * string :=
  match fuel with
  | O => (curr, next)
  | S fuel' =>
      match truthy (findBestPredecessor curr next) with
      | None => (curr, next)
      | Some prev =>
          if StrSet.mem (halfEdgeKey prev curr) occupied then (curr, next)
          else getStrokeStart_loop fuel' occupied prev curr
      end
  end.

Definition getStrokeStart (occupied : list string) (u v : string)
  : string * string :=
  getStrokeStart_loop 50 occupied u v.

(** [traceRoadStroke(u, v)]: at most 40 steps forward. *)
Fixpoint traceRoadStroke_loop (fuel : nat) (occupied : list string)
  (prev curr : string) (nodeIds edgeIds : list string)
  : list string * list string :=
  match fuel with
  | O => (nodeIds, edgeIds)
  | S fuel' =>
      match truthy (findBestContinuation prev curr) with
      | None => (nodeIds, edgeIds)
      | Some next =>
          if StrSet.mem (halfEdgeKey curr next) occupied
          then (nodeIds, edgeIds)
          else
            let edgeIds :=
              match getEdgeBetween curr next with
              | Some e => edgeIds ++ [e_id e]
              | None => edgeIds
              end in
            traceRoadStroke_loop fuel' occupied curr next
                                 (nodeIds ++ [next]) edgeIds
      end
  end.

Definition traceRoadStroke (occupied : list string) (u v : string)
  : list string * list string :=
  traceRoadStroke_loop 40 occupied u v [u; v]
    (match getEdgeBetween u v with Some e => [e_id e] | None => [] end).

(** *** Extrusion *)

(** [x || 1] for a number [x]: 0 and NaN are falsy. *)
Definition orOne (x : float) : float :=
  if (x =? 0) || is_nan x then 1 else x.

Definition adjustToWater (start end_ : Point) : Point :=
  if negb (isPointInWater end_) then end_
  else if isPointInWater start then start
  else
    let '(_, _, boundary) :=
      fold_left
        (fun (st : Point * Point * Point) (_ : nat) =>
           let '(safe, unsafe, boundary) := st in
           let mid := mkPoint ((px safe + px unsafe) * 0.5)
                              ((py safe + py unsafe) * 0.5) in
           if isPointInWater mid then (safe, mid, boundary)
           else (mid, unsafe, mid))
        (seq 0 4) (start, end_, start) in
    boundary.

(** The front and back vertex of [extrudeChain] at [curr], between the
    optional neighbours [prev] and [next] of the chain. *)
Definition extrudeVertex (prev : option Point) (curr : Point)
  (next : option Point) (gap depth : float) : Point * Point :=
  let unit (a b : Point) :=
    let dx := px b - px a in
    let dy := py b - py a in
    let l := orOne (hypot dx dy) in
    mkPoint (dx / l) (dy / l) in
  let vIn := match prev with Some p => unit p curr | None => mkPoint 0 0 end in
  let vOut := match next with Some n => unit curr n | None => mkPoint 0 0 end in
  let '(miter, scale) :=
    match prev, next with
    | None, _ => (mkPoint (- py vOut) (px vOut), 1.0)
    | Some _, None => (mkPoint (- py vIn) (px vIn), 1.0)
    | Some _, Some _ =>
        let sumX := px vIn + px vOut in
        let sumY := py vIn + py vOut in
        let l := hypot sumX sumY in
        if l <? 1e-5 then (mkPoint (- py vIn) (px vIn), 1.0)
        else
          let miter := mkPoint (- sumY / l) (sumX / l) in
          let miter :=
            if px miter * - py vIn + py miter * px vIn <? 0
            then mkPoint (- px miter) (- py miter) else miter in
          let dot := px miter * - py vIn + py miter * px vIn in
          (miter, if dot <? 0.2 then 2.5 else 1.0 / dot)
    end in
  let scale := Num.min scale 2.5 in
  let seed := Math_sin (px curr * 12.9898 + py curr * 78.233) * 43758.5453 in
  let jitter := (seed - Num.floor seed) * (depth * 0.15) in
  let actualDepth := depth + jitter in
  let f := mkPoint (px curr + px miter * gap * scale)
                   (py curr + py miter * gap * scale) in
  let b := mkPoint (px curr + px miter * (gap + actualDepth) * scale)
                   (py curr + py miter * (gap + actualDepth) * scale) in
  (f, adjustToWater f b).

(** [extrudeChain(nodeIds, gap, depth)]: the front vertices followed by the
    back vertices in reverse. *)
Definition extrudeChain (nodeIds : list string) (gap depth : float)
  : list Point :=
  if (length nodeIds <? 2)%nat then []
  else
    let points := map (fun id => nodePoint (getNode g id)) nodeIds in
    let n := length points in
    let fb :=
      map (fun i =>
             extrudeVertex
               (if (0 <? i)%nat then Some (at_ points (i - 1)) else None)
               (at_ points i)
               (if (i <? n - 1)%nat then Some (at_ points (i + 1)) else None)
               gap depth)
          (seq 0 n) in
    map fst fb ++ rev (map snd fb).

Definition generateChainKeys (nodeIds : list string) : list string :=
  map (fun i => halfEdgeKey (nth i nodeIds EmptyString)
                            (nth (i + 1) nodeIds EmptyString))
      (seq 0 (length nodeIds - 1)).

(** *** Filament plots *)

(** [generateAndAddPlot(nodeIds, edgeIds, depth, visitedStrokes)]: the
    generator state, the set [visitedStrokes] and the boolean result. *)
Definition generateAndAddPlot (s : State) (visitedStrokes : list string)
  (nodeIds edgeIds : list string) (depth : float)
  : State * list string * bool :=
  let gap := 3.0 in
  let attempt (scale : float) : option Plot :=
    let currentDepth := depth * scale in
    let poly := extrudeChain nodeIds gap currentDepth in
    let poly := simplifyPolygon poly 1.0 in
    let poly := rev poly in
    let obb := getOBB poly in
    if obb_width obb <? 8.0 then None
    else if isValidPlot (plots s) poly then
      Some (mkPlot ("plot_strip_" ++ decimal (plotIdCounter s)) poly false
                   (abs (calculatePolygonArea poly)) edgeIds SUBURBAN_STRIP
                   (generateChainKeys nodeIds))
    else None in
  let accepted :=
    match attempt 1.0 with
    | Some p => Some p
    | None => match attempt 0.75 with
              | Some p => Some p
              | None => attempt 0.5
              end
    end in
  match accepted with
  | Some p =>
      let keys := generateChainKeys nodeIds in
      (mkState (plots s ++ [p]) (S (plotIdCounter s))
               (StrSet.addAll keys (occupiedHalfEdges s)),
       StrSet.addAll keys visitedStrokes, true)
  | None => (s, visitedStrokes, false)
  end.

(** [attemptStroke(u, v, depth, visitedStrokes)] *)
Definition attemptStroke (s : State) (visitedStrokes : list string)
  (u v : string) (depth : float) : State * list string :=
  let key := halfEdgeKey u v in
  if StrSet.mem key (occupiedHalfEdges s) then (s, visitedStrokes)
  else if StrSet.mem key visitedStrokes then (s, visitedStrokes)
  else
    let '(start, end_) := getStrokeStart (occupiedHalfEdges s) u v in
    let '(nodeIds, edgeIds) :=
      traceRoadStroke (occupiedHalfEdges s) start end_ in
    let '(s1, vs1, ok) :=
      generateAndAddPlot s visitedStrokes nodeIds edgeIds depth in
    if ok then (s1, vs1)
    else
      let singleSegmentEdgeIds :=
        match getEdgeBetween u v with Some e => [e_id e] | None => [] end in
      let '(s2, vs2, _) :=
        generateAndAddPlot s1 vs1 [u; v] singleSegmentEdgeIds depth in
      (s2, vs2).

Definition distanceToCenter (p : Point) : float :=
  hypot (px p - px cityCenter) (py p - py cityCenter).

(** [generateFilamentPlots()] *)
Definition generateFilamentPlots (s : State) : State :=
  let baseDepth :=
    if fixedBuildingDepth params >? 0 then fixedBuildingDepth params + 15
    else 50 in
  let sortedEdges :=
    sortBy (fun a b =>
              distanceToCenter (nodePoint (getNode g (startNodeId a)))
              - distanceToCenter (nodePoint (getNode g (startNodeId b))))
           (edges g) in
  fst (fold_left
    (fun (st : State * list string) (edge : Edge) =>
       if isBridge edge then st
       else
         let '(s1, vs1) :=
           attemptStroke (fst st) (snd st) (startNodeId edge) (endNodeId edge)
                         baseDepth in
         attemptStroke s1 vs1 (endNodeId edge) (startNodeId edge) baseDepth)
    sortedEdges (s, [])).

(** [isNodeActive(nodeId, excludeNodeId)] *)
Definition isNodeActive (occupied : list string) (nodeId excludeNodeId : string)
  : bool :=
  match StrSet.lookup nodeId (nodes g) with
  | None => false
  | Some node =>
      existsb
        (fun neighborId =>
           if String.eqb neighborId excludeNodeId then false
           else StrSet.mem (halfEdgeKey nodeId neighborId) occupied
                || StrSet.mem (halfEdgeKey neighborId nodeId) occupied)
        (connections node)
  end.

(** [fillGaps()] *)
Definition fillGaps (s : State) : State :=
  fst (fold_left
    (fun (st : State * list string) (edge : Edge) =>
       if isBridge edge then st
       else
         let '(s0, vs0) := st in
         let u := startNodeId edge in
         let v := endNodeId edge in
         let fwdOcc := StrSet.mem (halfEdgeKey u v) (occupiedHalfEdges s0) in
         let bwdOcc := StrSet.mem (halfEdgeKey v u) (occupiedHalfEdges s0) in
         let uActive := isNodeActive (occupiedHalfEdges s0) u v in
         let vActive := isNodeActive (occupiedHalfEdges s0) v u in
         let '(s1, vs1) :=
           if negb fwdOcc && (bwdOcc || uActive || vActive)
           then attemptStroke s0 vs0 u v 30
           else (s0, vs0) in
         if negb bwdOcc && (fwdOcc || uActive || vActive)
         then attemptStroke s1 vs1 v u 30
         else (s1, vs1))
    (edges g) (s, [])).

(** [generate()]: the state it starts from is discarded by [reset()]. *)
Definition generate : State :=
  if (length (nodes g) <? 2)%nat || (length (edges g) <? 1)%nat then reset
  else
    let s := detectEnclosedPlots reset in
    let s := generateFilamentPlots s in
    let sorted :=
      sortBy (fun a b =>
                distanceToCenter (calculateCentroid (p_points a))
                - distanceToCenter (calculateCentroid (p_points b)))
             (plots s) in
    fillGaps (mkState sorted (plotIdCounter s) (occupiedHalfEdges s)).

(** *** Cleanup *)

(** geometry.ts: [getMinEdgeLength] *)
Definition getMinEdgeLength (poly : list Point) : float :=
  if (length poly <? 2)%nat then 0
  else
    fold_left
      (fun (minLen : float) (i : nat) =>
         let p1 := at_ poly i in
         let p2 := at_ poly ((i + 1) mod length poly) in
         let len := hypot (px p2 - px p1) (py p2 - py p1) in
         if len <? minLen then len else minLen)
      (seq 0 (length poly)) infinity.

(** geometry.ts: [getMinInteriorAngle], in degrees *)
Definition getMinInteriorAngle (poly : list Point) : float :=
  if (length poly <? 3)%nat then 0
  else
    let n := length poly in
    fold_left
      (fun (minAngle : float) (i : nat) =>
         let prev := at_ poly ((i + n - 1) mod n) in
         let curr := at_ poly i in
         let next := at_ poly ((i + 1) mod n) in
         let v1x := px prev - px curr in
         let v1y := py prev - py curr in
         let v2x := px next - px curr in
         let v2y := py next - py curr in
         let len1 := hypot v1x v1y in
         let len2 := hypot v2x v2y in
         if (len1 <? 0.001) || (len2 <? 0.001) then minAngle
         else
           let dot := (v1x * v2x + v1y * v2y) / (len1 * len2) in
           let angle :=
             Math_acos (Num.max (-1) (Num.min 1 dot)) * (180 / Math_PI) in
           if angle <? minAngle then angle else minAngle)
      (seq 0 n) 180.

(** geometry.ts: the [valid] field of [validatePolygon] *)
Definition validatePolygon (poly : list Point)
  (minArea maxArea minEdge minAng : float) : bool :=
  if (length poly <? 3)%nat then false
  else
    (calculatePolygonArea poly >=? minArea)
    && (calculatePolygonArea poly <=? maxArea)
    && (getMinEdgeLength poly >=? minEdge)
    && (getMinInteriorAngle poly >=? minAng).

(** The filter of [cleanupPlots]: [true] keeps the plot. *)
Definition keepPlot (customValidator : Plot -> bool) (plot : Plot) : bool :=
  if p_area plot <? minBuildingArea params then false
  else if obb_width (getOBB (p_points plot)) <? minEdgeLength params then false
  else if isEnclosed plot
          && negb (validatePolygon (p_points plot) (minBuildingArea params)
                                   999999 1 (minAngle params))
  then false
  else customValidator plot.

(** [rebuildOccupancy()] *)
Definition rebuildOccupancy (ps : list Plot) : list string :=
  fold_left (fun occ plot => StrSet.addAll (halfEdges plot) occ) ps [].

(** [cleanupPlots(customValidator)]: the new state and whether a plot was
    removed. *)
Definition cleanupPlots (customValidator : Plot -> bool) (s : State)
  : State * bool :=
  let kept := filter (keepPlot customValidator) (plots s) in
  let removed := (length kept <? length (plots s))%nat in
  (mkState kept (plotIdCounter s)
           (if removed then rebuildOccupancy kept else occupiedHalfEdges s),
   removed).

(** The longest edge among [edgeIds], the first one on ties; the empty
    string when none resolves. *)
Definition longestEdge (edgeIds : list string) : string :=
  fst (fold_left
    (fun (st : string * float) (eid : string) =>
       match find (fun ed => String.eqb (e_id ed) eid) (edges g) with
       | None => st
       | Some e =>
           match StrSet.lookup (startNodeId e) (nodes g),
                 StrSet.lookup (endNodeId e) (nodes g) with
           | Some n1, Some n2 =>
               let len := hypot (n_x n1 - n_x n2) (n_y n1 - n_y n2) in
               if len >? snd st then (eid, len) else st
           | _, _ => st
           end
       end)
    edgeIds (EmptyString, -1)).

(** [findEmptyRoadLoops()]: for every traced face none of whose half-edges
    is occupied, its longest edge. *)
Definition findEmptyRoadLoops (s : State) : list string :=
  let nodeAngles := buildNodeAngleMap in
  snd (fold_left
    (fun (st : list string * list string) (edge : Edge) =>
       if isBridge edge then st
       else
         fold_left
           (fun (st : list string * list string) (uv : string * string) =>
              let '(visited, edgesToRemove) := st in
              let key := halfEdgeKey (fst uv) (snd uv) in
              if StrSet.mem key visited then st
              else
                match traceFace (fst uv) (snd uv) nodeAngles visited with
                | Some result =>
                    if (2 <? length (f_nodes result))%nat then
                      let visited := StrSet.addAll (f_keys result) visited in
                      let isOccupied :=
                        existsb (fun k => StrSet.mem k (occupiedHalfEdges s))
                                (f_keys result) in
                      if isOccupied then (visited, edgesToRemove)
                      else
                        match longestEdge (f_edges result) with
                        | EmptyString => (visited, edgesToRemove)
                        | longestEdgeId =>
                            (visited, edgesToRemove ++ [longestEdgeId])
                        end
                    else st
                | None => st
                end)
           (bothDirections edge) st)
    (edges g) ([], [])).

End WithGraph.

End PlotGenerator.

(** ** CityGenerator.ts: the graph primitives *)

Module RoadGraph.

(** The part of the CityGenerator state that [addNode], [addEdge] and
    [removeEdge] touch. *)
Record State : Type := mkState {
  graph : Graph;
  nodeIdCounter : nat;
  edgeIdCounter : nat;
  lastStepEdgeIds : list string;
}.

Definition empty : State := mkState (mkGraph [] [] []) 0 0 [].

Definition decimal (n : nat) : string :=
  NilZero.string_of_uint (Nat.to_uint n).

(** [Map.prototype.set]: an existing key keeps its place. *)
Fixpoint setNode (id : string) (n : Node) (m : list (string * Node))
  : list (string * Node) :=
  match m with
  | [] => [(id, n)]
  | (k, v) :: m' =>
      if String.eqb k id then (k, n) :: m' else (k, v) :: setNode id n m'
  end.

(** [Map.prototype.delete] *)
Definition deleteNode (id : string) (m : list (string * Node))
  : list (string * Node) :=
  filter (fun kv => negb (String.eqb (fst kv) id)) m.

(** Mutation of the node object stored under [id], when there is one. *)
Definition updateNode (id : string) (f : Node -> Node)
  (m : list (string * Node)) : list (string * Node) :=
  map (fun kv => if String.eqb (fst kv) id then (fst kv, f (snd kv)) else kv) m.

Definition withConnections (cs : list string) (n : Node) : Node :=
  mkNode (n_x n) (n_y n) (n_id n) cs.

(** [addNode(point)]: the new node and the new state. *)
Definition addNode (s : State) (point : Point) : Node * State :=
  let id := ("n_" ++ decimal (nodeIdCounter s))%string in
  let node := mkNode (px point) (py point) id [] in
  (node,
   mkState (mkGraph (setNode id node (nodes (graph s))) (edges (graph s))
                    (bridgeEdgeIds (graph s)))
           (S (nodeIdCounter s)) (edgeIdCounter s) (lastStepEdgeIds s)).

Definition connects (a b : string) (e : Edge) : bool :=
  (String.eqb (startNodeId e) a && String.eqb (endNodeId e) b)
  || (String.eqb (startNodeId e) b && String.eqb (endNodeId e) a).

(** [addEdge(fromId, toId)]: [None] is the [null] result, which leaves the
    state unchanged. *)
Definition addEdge (s : State) (fromId toId : string) : option Edge * State :=
  if String.eqb fromId toId then (None, s)
  else if existsb (connects fromId toId) (edges (graph s)) then (None, s)
  else
    let id := ("e_" ++ decimal (edgeIdCounter s))%string in
    let edge := mkEdge id fromId toId in
    let push (other : string) (n : Node) :=
      withConnections (connections n ++ [other]) n in
    (Some edge,
     mkState
       (mkGraph
          (updateNode toId (push fromId)
             (updateNode fromId (push toId) (nodes (graph s))))
          (edges (graph s) ++ [edge])
          (bridgeEdgeIds (graph s)))
       (nodeIdCounter s) (S (edgeIdCounter s))
       (StrSet.add id (lastStepEdgeIds s))).

(** [edges.splice(idx, 1)] for the first edge with the given id. *)
Fixpoint spliceEdge (edgeId : string) (es : list Edge) : list Edge :=
  match es with
  | [] => []
  | e :: es' =>
      if String.eqb (e_id e) edgeId then es' else e :: spliceEdge edgeId es'
  end.

Definition dropIfIsolated (id : string) (m : list (string * Node))
  : list (string * Node) :=
  match StrSet.lookup id m with
  | Some n => if (length (connections n) =? 0)%nat
              then deleteNode (n_id n) m else m
  | None => m
  end.

(** [removeEdge(edgeId)] on the graph. *)
Definition removeEdge (g : Graph) (edgeId : string) : Graph :=
  match find (fun e => String.eqb (e_id e) edgeId) (edges g) with
  | None => g
  | Some edge =>
      let unlink (other : string) (n : Node) :=
        withConnections
          (filter (fun id => negb (String.eqb id other)) (connections n)) n in
      let ns := updateNode (startNodeId edge) (unlink (endNodeId edge))
                           (nodes g) in
      let ns := updateNode (endNodeId edge) (unlink (startNodeId edge)) ns in
      let ns := dropIfIsolated (startNodeId edge) ns in
      let ns := dropIfIsolated (endNodeId edge) ns in
      mkGraph ns (spliceEdge edgeId (edges g)) (bridgeEdgeIds g)
  end.

Definition degree (g : Graph) (id : string) : option nat :=
  option_map (fun n => length (connections n)) (StrSet.lookup id (nodes g)).

(** The spur condition of [pruneSpurs]: one end of degree 1, the other of
    degree at least 3. *)
Definition isSpur (g : Graph) (e : Edge) : bool :=
  match degree g (startNodeId e), degree g (endNodeId e) with
  | Some d1, Some d2 =>
      ((d1 =? 1)%nat && (3 <=? d2)%nat) || ((d2 =? 1)%nat && (3 <=? d1)%nat)
  | _, _ => false
  end.

(** [pruneSpurs()]: the edges are visited from the last to the first, each
    one judged in the graph as it is when its turn comes.  The result says
    whether an edge was removed. *)
Definition pruneSpurs (g : Graph) : bool * Graph :=
  fold_left
    (fun (st : bool * Graph) (e : Edge) =>
       if isSpur (snd st) e then (true, removeEdge (snd st) (e_id e)) else st)
    (rev (edges g)) (false, g).

(** A graph from points and index pairs, built by [addNode] and [addEdge]. *)
Definition build (points : list Point) (links : list (nat * nat)) : State :=
  let s := fold_left (fun s p => snd (addNode s p)) points empty in
  fold_left
    (fun s (l : nat * nat) =>
       snd (addEdge s ("n_" ++ decimal (fst l)) ("n_" ++ decimal (snd l))))
    links s.

End RoadGraph.

(** ** CityGenerator.ts: cleanup *)

Module Cleanup.

Section WithWorld.

Context {M : MathLib}.
Variable params : GenerationParams.
Variable isPointInWater : Point -> bool.
Variable cityCenter : Point.

(** [buildingGen.canFitBuilding(plot)], whose source is not part of
    [BuildingGenerator.ts] as given: a parameter, which may read the graph
    the building generator refers to. *)
Variable canFitBuilding : Graph -> Plot -> bool.

(** The road graph and the plot generator, which refers to it. *)
Record State : Type := mkState {
  graph : Graph;
  blockGen : PlotGenerator.State;
}.

(** [generateBlocks()] *)
Definition generateBlocks (g : Graph) : PlotGenerator.State :=
  PlotGenerator.generate params isPointInWater cityCenter g.

(** What a run of [cleanup()] did, next to the state it leaves: whether a
    pass of [pruneSpurs] removed an edge, the edges removed to break empty
    loops, and whether the loop stopped by [break] rather than by
    exhausting [maxIterations]. *)
Record Run : Type := mkRun {
  final : State;
  spursRemoved : bool;
  loopEdgesRemoved : list string;
  stoppedByBreak : bool;
}.

Definition maxIterations : nat := 10.

(** The loop of [cleanup()]; [fuel] is [maxIterations - iterations]. *)
Fixpoint cleanupLoop (fuel : nat) (s : State) (spurs : bool)
  (removed : list string) : Run :=
  match fuel with
  | O => mkRun s spurs removed false
  | S fuel' =>
      let '(pruned, g1) := RoadGraph.pruneSpurs (graph s) in
      let '(pg1, _) :=
        PlotGenerator.cleanupPlots params (canFitBuilding g1) (blockGen s) in
      let edgesToRemove := PlotGenerator.findEmptyRoadLoops g1 pg1 in
      match edgesToRemove with
      | [] => mkRun (mkState g1 pg1) (spurs || pruned) removed true
      | _ :: _ =>
          let g2 := fold_left RoadGraph.removeEdge edgesToRemove g1 in
          cleanupLoop fuel' (mkState g2 (generateBlocks g2))
                      (spurs || pruned) (removed ++ edgesToRemove)
      end
  end.

Definition cleanup (s : State) : Run := cleanupLoop maxIterations s false [].

End WithWorld.

End Cleanup.

(** ** Face tracing: when a trace fails and when it succeeds *)

Module TraceFacts.

Import PlotGenerator.

Section WithGraph.

Context {M : MathLib}.
Variable g : Graph.
Variable nodeAngles : list (string * list (string * float)).
Variable visited : list string.
Variable startNode : string.

(** A step fails when the half-edge just walked is already visited. *)
Lemma traceStep_visited (w : Walk) :
  StrSet.mem (halfEdgeKey (w_prev w) (w_curr w)) visited = true ->
  traceStep g nodeAngles visited w = None.
Proof. unfold traceStep. intros ->. reflexivity. Qed.

(** A step fails when the edge to the next neighbour is a bridge. *)
Lemma traceStep_bridge (w : Walk) (nextId : string) (e : Edge) :
  nextNeighbor g nodeAngles w = Some nextId ->
  getEdgeBetween g (w_curr w) nextId = Some e ->
  isBridge g e = true ->
  traceStep g nodeAngles visited w = None.
Proof.
  unfold traceStep. intros -> -> ->.
  destruct (StrSet.mem _ visited); reflexivity.
Qed.

(** A step fails on a U-turn: the next neighbour is the node just left. *)
Lemma traceStep_uturn (w : Walk) :
  nextNeighbor g nodeAngles w = Some (w_prev w) ->
  traceStep g nodeAngles visited w = None.
Proof.
  unfold traceStep. intros ->.
  destruct (StrSet.mem _ visited); [reflexivity|].
  destruct (getEdgeBetween g (w_curr w) (w_prev w)); [|reflexivity].
  destruct (isBridge g e); [reflexivity|].
  rewrite String.eqb_refl. reflexivity.
Qed.

(** The walk reached from [w] after [n] successful steps none of which
    started at [startNode]. *)
Fixpoint walkAfter (n : nat) (w : Walk) : option Walk :=
  match n with
  | O => Some w
  | S n' =>
      if String.eqb (w_curr w) startNode then None
      else match traceStep g nodeAngles visited w with
           | None => None
           | Some w' => walkAfter n' w'
           end
  end.

Lemma traceLoop_walkAfter (n fuel : nat) (w w' : Walk) :
  walkAfter n w = Some w' ->
  traceLoop g (n + fuel) startNode nodeAngles visited w
  = traceLoop g fuel startNode nodeAngles visited w'.
Proof.
  revert w. induction n as [|n IH]; simpl; intros w H.
  - injection H as ->. reflexivity.
  - destruct (String.eqb (w_curr w) startNode); [discriminate|].
    destruct (traceStep g nodeAngles visited w) as [w1|]; [|discriminate].
    apply IH. exact H.
Qed.

(** A failing step anywhere along the walk makes the whole trace fail. *)
Lemma traceLoop_fails_later (n fuel : nat) (w w' : Walk) :
  walkAfter n w = Some w' ->
  String.eqb (w_curr w') startNode = false ->
  traceStep g nodeAngles visited w' = None ->
  traceLoop g (n + fuel) startNode nodeAngles visited w = None.
Proof.
  intros Hw Hne Hstep. rewrite (@traceLoop_walkAfter n fuel w w' Hw).
  destruct fuel; simpl; rewrite Hne; [reflexivity|].
  rewrite Hstep. reflexivity.
Qed.

(** A walk that has not returned to [startNode] when the step cap is
    exhausted yields nothing. *)
Lemma traceLoop_cap (w w' : Walk) :
  walkAfter stepCap w = Some w' ->
  String.eqb (w_curr w') startNode = false ->
  traceLoop g stepCap startNode nodeAngles visited w = None.
Proof.
  intros Hw Hne.
  replace stepCap with (stepCap + 0)%nat by apply Nat.add_0_r.
  rewrite (@traceLoop_walkAfter stepCap 0 w w' Hw). simpl. rewrite Hne. reflexivity.
Qed.

(** A trace succeeds only by returning to [startNode]: its last key is the
    half-edge into [startNode]. *)
Lemma traceLoop_closes (fuel : nat) (w : Walk) (f : Face) :
  traceLoop g fuel startNode nodeAngles visited w = Some f ->
  exists prev ks, f_keys f = ks ++ [halfEdgeKey prev startNode].
Proof.
  revert w. induction fuel as [|fuel IH]; simpl; intros w H.
  - destruct (String.eqb (w_curr w) startNode) eqn:E; [|discriminate].
    apply String.eqb_eq in E. injection H as <-. simpl.
    exists (w_prev w), (w_keys w). rewrite E. reflexivity.
  - destruct (String.eqb (w_curr w) startNode) eqn:E.
    + apply String.eqb_eq in E. injection H as <-. simpl.
      exists (w_prev w), (w_keys w). rewrite E. reflexivity.
    + destruct (traceStep g nodeAngles visited w) as [w1|]; [|discriminate].
      eapply IH. exact H.
Qed.

(** The closing half-edge is appended without the visited test. *)
Lemma traceLoop_closing_unchecked (fuel : nat) (w : Walk) :
  w_curr w = startNode ->
  traceLoop g fuel startNode nodeAngles visited w
  = Some (mkFace (w_nodes w) (w_edges w)
                 (w_keys w ++ [halfEdgeKey (w_prev w) startNode])).
Proof.
  intros E. destruct fuel; simpl; rewrite E, String.eqb_refl; reflexivity.
Qed.

End WithGraph.

End TraceFacts.

(** ** Plot extraction: which plots [generate()] keeps from each pass *)

Module GenerateFacts.

Import PlotGenerator.

Lemma sortInsert_In {A : Type} (cmp : A -> A -> float) (x y : A) (l : list A) :
  In x (sortInsert cmp y l) <-> x = y \/ In x l.
Proof.
  induction l as [|z l IH]; simpl.
  - intuition.
  - destruct (cmp y z <? 0); simpl; [intuition|].
    rewrite IH. intuition.
Qed.

Lemma sortBy_In {A : Type} (cmp : A -> A -> float) (x : A) (l : list A) :
  In x (sortBy cmp l) <-> In x l.
Proof.
  unfold sortBy.
  assert (H : forall acc, In x (fold_left (fun sorted y => sortInsert cmp y sorted) l acc)
                          <-> In x l \/ In x acc).
  { induction l as [|y l IH]; intros acc; simpl; [intuition|].
    rewrite IH, sortInsert_In. intuition. }
  rewrite H. simpl. intuition.
Qed.

Section WithGraph.

Context {M : MathLib}.
Variable params : GenerationParams.
Variable isPointInWater : Point -> bool.
Variable cityCenter : Point.
Variable g : Graph.

(** [s'] has the enclosed plots of [s], and all the plots of [s]. *)
Definition keepsEnclosed (s s' : State) : Prop :=
  (forall p, In p (plots s) -> In p (plots s'))
  /\ (forall p, isEnclosed p = true -> In p (plots s') -> In p (plots s)).

Lemma keepsEnclosed_refl (s : State) : keepsEnclosed s s.
Proof. split; auto. Qed.

Lemma keepsEnclosed_trans (s1 s2 s3 : State) :
  keepsEnclosed s1 s2 -> keepsEnclosed s2 s3 -> keepsEnclosed s1 s3.
Proof. intros [A1 B1] [A2 B2]. split; auto. Qed.

Lemma generateAndAddPlot_keeps (s : State) (vs nodeIds edgeIds : list string)
  (depth : float) :
  keepsEnclosed s
    (fst (fst (generateAndAddPlot isPointInWater g s vs nodeIds edgeIds depth))).
Proof.
  unfold generateAndAddPlot.
  match goal with
  | |- context [match ?a with Some _ => _ | None => _ end] =>
      assert (Hstrip : forall p, a = Some p -> isEnclosed p = false);
      [|destruct a as [p|] eqn:E]
  end.
  - intros p.
    repeat match goal with
           | |- context [if ?c then _ else _] => destruct c
           end; intros H; try discriminate H; injection H as <-; reflexivity.
  - simpl. split.
    + intros q Hq. apply in_or_app. left. exact Hq.
    + intros q Hq Hin. apply in_app_or in Hin. destruct Hin as [Hin|[<-|[]]].
      * exact Hin.
      * rewrite (Hstrip _ eq_refl) in Hq. discriminate.
  - apply keepsEnclosed_refl.
Qed.

Lemma attemptStroke_keeps (s : State) (vs : list string) (u v : string)
  (depth : float) :
  keepsEnclosed s (fst (attemptStroke isPointInWater g s vs u v depth)).
Proof.
  unfold attemptStroke.
  destruct (StrSet.mem _ (occupiedHalfEdges s)); [apply keepsEnclosed_refl|].
  destruct (StrSet.mem _ vs); [apply keepsEnclosed_refl|].
  destruct (getStrokeStart g (occupiedHalfEdges s) u v) as [start end_].
  destruct (traceRoadStroke g (occupiedHalfEdges s) start end_)
    as [nodeIds edgeIds].
  pose proof (generateAndAddPlot_keeps s vs nodeIds edgeIds depth) as H1.
  destruct (generateAndAddPlot isPointInWater g s vs nodeIds edgeIds depth)
    as [[s1 vs1] ok]. simpl in H1.
  destruct ok; [exact H1|].
  match goal with
  | |- context [generateAndAddPlot ?w ?gg s1 vs1 ?n ?e ?d] =>
      pose proof (generateAndAddPlot_keeps s1 vs1 n e d) as H2;
      destruct (generateAndAddPlot w gg s1 vs1 n e d) as [[s2 vs2] ok2]
  end.
  simpl in *. eapply keepsEnclosed_trans; eauto.
Qed.

Lemma fold_keeps {A B : Type} (f : State * B -> A -> State * B)
  (l : list A) (st : State * B) :
  (forall st a, keepsEnclosed (fst st) (fst (f st a))) ->
  keepsEnclosed (fst st) (fst (fold_left f l st)).
Proof.
  intros Hf. revert st. induction l as [|a l IH]; intros st; simpl.
  - apply keepsEnclosed_refl.
  - eapply keepsEnclosed_trans; [apply Hf|apply IH].
Qed.

Lemma generateFilamentPlots_keeps (s : State) :
  keepsEnclosed s (generateFilamentPlots params isPointInWater cityCenter g s).
Proof.
  unfold generateFilamentPlots.
  match goal with
  | |- keepsEnclosed s (fst (fold_left ?f ?l (s, ?vs))) =>
      change s with (fst (s, vs)) at 1; apply fold_keeps
  end.
  intros [s0 vs0] edge. simpl.
  destruct (isBridge g edge); [apply keepsEnclosed_refl|].
  pose proof (attemptStroke_keeps s0 vs0 (startNodeId edge) (endNodeId edge)) as H1.
  match goal with
  | |- context [attemptStroke ?w ?gg s0 vs0 ?a ?b ?d] =>
      specialize (H1 d); destruct (attemptStroke w gg s0 vs0 a b d) as [s1 vs1]
  end.
  eapply keepsEnclosed_trans; [exact H1|apply attemptStroke_keeps].
Qed.

Lemma fillGaps_keeps (s : State) :
  keepsEnclosed s (fillGaps isPointInWater g s).
Proof.
  unfold fillGaps.
  match goal with
  | |- keepsEnclosed s (fst (fold_left ?f ?l (s, ?vs))) =>
      change s with (fst (s, vs)) at 1; apply fold_keeps
  end.
  intros [s0 vs0] edge. simpl.
  destruct (isBridge g edge); [apply keepsEnclosed_refl|].
  match goal with
  | |- context [if ?c then attemptStroke ?w ?gg s0 vs0 ?a ?b ?d else _] =>
      pose proof (attemptStroke_keeps s0 vs0 a b d) as H1;
      destruct c; [destruct (attemptStroke w gg s0 vs0 a b d) as [s1 vs1]|]
  end.
  - simpl in H1.
    match goal with
    | |- context [if ?c then _ else _] => destruct c
    end; [|exact H1].
    eapply keepsEnclosed_trans; [exact H1|apply attemptStroke_keeps].
  - match goal with
    | |- context [if ?c then _ else _] => destruct c
    end; [apply attemptStroke_keeps|apply keepsEnclosed_refl].
Qed.

(** [generate()] keeps every plot of the enclosed pass, and every enclosed
    plot of its result comes from that pass. *)
Lemma generate_keeps :
  (2 <= length (nodes g))%nat -> (1 <= length (edges g))%nat ->
  keepsEnclosed (detectEnclosedPlots params isPointInWater g reset)
                (generate params isPointInWater cityCenter g).
Proof.
  intros Hn He. unfold generate.
  apply Nat.ltb_ge in Hn, He. rewrite Hn, He. simpl.
  eapply keepsEnclosed_trans; [|apply fillGaps_keeps].
  eapply keepsEnclosed_trans; [apply generateFilamentPlots_keeps|].
  split; simpl.
  - intros p Hp. apply sortBy_In. exact Hp.
  - intros p _ Hp. apply sortBy_In in Hp. exact Hp.
Qed.

End WithGraph.

End GenerateFacts.

(** ** Enclosed plots of a square loop *)

(** Four nodes at (0,0), (10,0), (10,10), (0,10) joined in a square loop,
    without bridges. *)
Definition squareLoop10 : Graph :=
  RoadGraph.graph
    (RoadGraph.build [mkPoint 0 0; mkPoint 10 0; mkPoint 10 10; mkPoint 0 10]
                     [(0, 1); (1, 2); (2, 3); (3, 0)]%nat).

(** The same loop with side 20. *)
Definition squareLoop20 : Graph :=
  RoadGraph.graph
    (RoadGraph.build [mkPoint 0 0; mkPoint 20 0; mkPoint 20 20; mkPoint 0 20]
                     [(0, 1); (1, 2); (2, 3); (3, 0)]%nat).

Definition dryLand : Point -> bool := fun _ => false.

Definition facePoints (g : Graph) (f : PlotGenerator.Face) : list Point :=
  map (fun id => nodePoint (getNode g id)) (PlotGenerator.f_nodes f).

(** The two traces of [squareLoop10], one per side of the loop. *)
Definition squareFaceA : PlotGenerator.Face :=
  PlotGenerator.mkFace ["n_0"; "n_1"; "n_2"; "n_3"]%string
    ["e_0"; "e_1"; "e_2"; "e_3"]%string
    ["n_0->n_1"; "n_1->n_2"; "n_2->n_3"; "n_3->n_0"]%string.
Definition squareFaceB : PlotGenerator.Face :=
  PlotGenerator.mkFace ["n_1"; "n_0"; "n_3"; "n_2"]%string
    ["e_0"; "e_3"; "e_2"; "e_1"]%string
    ["n_1->n_0"; "n_0->n_3"; "n_3->n_2"; "n_2->n_1"]%string.

(** What the enclosed pass does on [squareLoop10]: both sides of the loop
    are traced, each trace has 4 vertices and area 100, and the 2-unit shrink
    of either is discarded by [shrinkPolygon]. *)
Definition squareLoop10_traced (M : MathLib) : Prop :=
  @PlotGenerator.traceFace M squareLoop10 "n_0" "n_1"
    (@PlotGenerator.buildNodeAngleMap M squareLoop10) [] = Some squareFaceA
  /\ @PlotGenerator.traceFace M squareLoop10 "n_1" "n_0"
       (@PlotGenerator.buildNodeAngleMap M squareLoop10)
       (PlotGenerator.f_keys squareFaceA) = Some squareFaceB
  /\ length (PlotGenerator.f_nodes squareFaceA) = 4%nat
  /\ length (PlotGenerator.f_nodes squareFaceB) = 4%nat
  /\ calculatePolygonArea (facePoints squareLoop10 squareFaceA) = 100
  /\ calculatePolygonArea (facePoints squareLoop10 squareFaceB) = 100
  /\ @shrinkPolygon M (rev (facePoints squareLoop10 squareFaceA)) 2 = []
  /\ @shrinkPolygon M (rev (facePoints squareLoop10 squareFaceB)) 2 = [].

Lemma squareLoop10_traces (sinF acosF : float -> float) :
  squareLoop10_traced (RefMath.math_with sinF acosF).
Proof.
  unfold squareLoop10_traced.
  repeat match goal with |- _ /\ _ => split end.
  all: vm_compute; reflexivity.
Qed.

Lemma squareLoop10_enclosed_pass (sinF acosF : float -> float) :
  @PlotGenerator.detectEnclosedPlots (RefMath.math_with sinF acosF) testParams
    dryLand squareLoop10 PlotGenerator.reset = PlotGenerator.reset.
Proof. vm_compute. reflexivity. Qed.

Lemma filter_none {A : Type} (f : A -> bool) (l : list A) :
  (forall x, In x l -> f x = false) -> filter f l = [].
Proof.
  induction l as [|a l IH]; simpl; intros H; [reflexivity|].
  rewrite (H a (or_introl eq_refl)). apply IH. intros x Hx. apply H. auto.
Qed.

(** The enclosed plots that [generate()] yields on [squareLoop10] in a dry
    500-by-500 world. *)
Definition squareLoop10_enclosed (M : MathLib) (cityCenter : Point)
  : list Plot :=
  filter isEnclosed
    (PlotGenerator.plots
       (@PlotGenerator.generate M testParams dryLand cityCenter squareLoop10)).

Definition squareLoop10_strips_only (M : MathLib) (cityCenter : Point)
  : Prop :=
  squareLoop10_enclosed M cityCenter = [].

Lemma squareLoop10_only_strips (sinF acosF : float -> float)
  (cityCenter : Point) :
  squareLoop10_strips_only (RefMath.math_with sinF acosF) cityCenter.
Proof.
  unfold squareLoop10_strips_only, squareLoop10_enclosed.
  apply filter_none. intros p Hin.
  destruct (isEnclosed p) eqn:E; [|reflexivity].
  pose proof (@GenerateFacts.generate_keeps (RefMath.math_with sinF acosF)
                testParams dryLand cityCenter squareLoop10) as H.
  destruct H as [_ H]; [vm_compute; lia|vm_compute; lia|].
  specialize (H p E Hin).
  rewrite (squareLoop10_enclosed_pass sinF acosF) in H. destruct H.
Qed.

(** C2 (as the code has it). For the four-node square loop of side 10,
    plot extraction in a dry 500-by-500 world yields no enclosed Plot,
    whatever the city centre: both sides of the loop are traced with a
    4-vertex boundary of area 100, the 2-unit shrink of either boundary is
    discarded, and every plot of [generate()] is a strip. *)
Theorem squareLoop10_no_enclosed_plot (sinF acosF : float -> float)
  (cityCenter : Point) :
  squareLoop10_strips_only (RefMath.math_with sinF acosF) cityCenter
  /\ squareLoop10_traced (RefMath.math_with sinF acosF).
Proof.
  split.
  - exact (squareLoop10_only_strips sinF acosF cityCenter).
  - exact (squareLoop10_traces sinF acosF).
Qed.

(** C2 as stated fails: extraction on the square loop of side 10 does not
    yield exactly one enclosed plot with a four-vertex boundary and an area
    strictly between 0 and 100; it yields none. *)
Lemma squareLoop10_not_one_enclosed_plot :
  ~ (exists p,
        squareLoop10_enclosed RefMath.math (mkPoint 250 250) = [p]
        /\ length (halfEdges p) = 4%nat
        /\ length (p_points p) = 4%nat
        /\ (0 <? p_area p) = true /\ (p_area p <? 100) = true).
Proof.
  intros (p & Hf & _).
  pose proof (squareLoop10_only_strips (fun _ => 0) (fun _ => 0)
                (mkPoint 250 250)) as H.
  unfold squareLoop10_strips_only in H.
  change (RefMath.math_with (fun _ => 0) (fun _ => 0)) with RefMath.math in H.
  rewrite H in Hf. discriminate Hf.
Qed.
(** ** Face tracing on roads that cross

    The four corners of a square of side 40 joined by the four sides and by
    both diagonals, which cross at (20,20) without a node.  [step()] never
    tests a new road for crossing an existing one. *)
Definition crossedSquare : Graph :=
  RoadGraph.graph
    (RoadGraph.build [mkPoint 0 0; mkPoint 40 0; mkPoint 40 40; mkPoint 0 40]
                     [(1, 0); (0, 3); (1, 2); (2, 3); (0, 2); (1, 3)]%nat).

(** The first two faces that [detectEnclosedPlots()] traces on
    [crossedSquare], from the two directions of its first edge [e_0]. *)
Definition crossedFace1 : PlotGenerator.Face :=
  PlotGenerator.mkFace ["n_1"; "n_0"; "n_2"]%string ["e_0"; "e_4"; "e_2"]%string
                       ["n_1->n_0"; "n_0->n_2"; "n_2->n_1"]%string.
Definition crossedFace2 : PlotGenerator.Face :=
  PlotGenerator.mkFace ["n_0"; "n_1"; "n_2"; "n_3"]%string
                       ["e_0"; "e_2"; "e_3"; "e_1"]%string
                       ["n_0->n_1"; "n_1->n_2"; "n_2->n_3"; "n_3->n_0"]%string.

(** The set [visited] of the pass once both are recorded. *)
Definition crossedVisited : list string :=
  StrSet.addAll (PlotGenerator.f_keys crossedFace2)
    (StrSet.addAll (PlotGenerator.f_keys crossedFace1) []).

(** What the pass does at its third trace, from [n_0] to [n_3] along the
    second edge [e_1], and the plots it ends with. *)
Definition crossedSquareTrace (M : MathLib) : Prop :=
  PlotGenerator.traceFace crossedSquare "n_1" "n_0"
    (PlotGenerator.buildNodeAngleMap crossedSquare) [] = Some crossedFace1
  /\ PlotGenerator.traceFace crossedSquare "n_0" "n_1"
       (PlotGenerator.buildNodeAngleMap crossedSquare)
       (StrSet.addAll (PlotGenerator.f_keys crossedFace1) [])
     = Some crossedFace2
  /\ StrSet.mem "n_0->n_3" crossedVisited = false
  /\ StrSet.mem "n_1->n_0" crossedVisited = true
  /\ PlotGenerator.traceFace crossedSquare "n_0" "n_3"
       (PlotGenerator.buildNodeAngleMap crossedSquare) crossedVisited
     = Some (PlotGenerator.mkFace
               ["n_0"; "n_3"; "n_1"]%string ["e_1"; "e_5"; "e_0"]%string
               ["n_0->n_3"; "n_3->n_1"; "n_1->n_0"]%string)
  /\ map (fun p => (p_id p, halfEdges p))
         (PlotGenerator.plots
            (PlotGenerator.detectEnclosedPlots testParams dryLand crossedSquare
               PlotGenerator.reset))
     = [("plot_core_0", ["n_1->n_0"; "n_0->n_2"; "n_2->n_1"]);
        ("plot_core_1", ["n_0->n_1"; "n_1->n_2"; "n_2->n_3"; "n_3->n_0"]);
        ("plot_core_2", ["n_0->n_3"; "n_3->n_1"; "n_1->n_0"]);
        ("plot_core_3", ["n_3->n_2"; "n_2->n_0"; "n_0->n_3"])]%string.

(** C6 (the case the code misses). On [crossedSquare] the detection pass
    first traces [n_1 -> n_0 -> n_2] and [n_0 -> n_1 -> n_2 -> n_3].  Its
    third trace starts on the half-edge [n_0->n_3], which is not visited,
    walks [n_3->n_1] and closes with [n_1->n_0], which the first face put in
    the visited set: the trace still succeeds, because the closing
    half-edge is pushed after the loop without the visited test.  The pass
    ends with two plots that both hold [n_1->n_0], and two that both hold
    [n_0->n_3]. *)
Theorem detectEnclosedPlots_closes_on_visited (sinF acosF : float -> float) :
  crossedSquareTrace (RefMath.math_with sinF acosF).
Proof.
  unfold crossedSquareTrace.
  repeat match goal with |- _ /\ _ => split end; vm_compute; reflexivity.
Qed.

(** ** Overlap between plots *)

Module OverlapFacts.

Import PlotGenerator.

Section WithMath.

Context {M : MathLib}.

(** A candidate accepted by [isValidPlot] whose test polygon is not empty
    does not clash with any accepted plot. *)
Lemma isValidPlot_checked (accepted : list Plot) (poly : list Point)
  (other : Plot) :
  isValidPlot accepted poly = true ->
  (3 <= length (shrinkPolygon poly 0.5))%nat ->
  In other accepted ->
  clashes (shrinkPolygon poly 0.5) other = false.
Proof.
  unfold isValidPlot. intros Hv Hlen Hin.
  destruct (length poly <? 3)%nat; [discriminate|].
  destruct (calculatePolygonArea poly <? 50); [discriminate|].
  apply Nat.ltb_ge in Hlen. rewrite Hlen in Hv.
  apply negb_true_iff in Hv. eapply existsb_false_In; eauto.
Qed.

(** A candidate whose test polygon is empty is accepted without a look at
    the accepted plots. *)
Lemma isValidPlot_untested (accepted : list Plot) (poly : list Point) :
  (length poly <? 3)%nat = false ->
  (calculatePolygonArea poly <? 50) = false ->
  shrinkPolygon poly 0.5 = [] ->
  isValidPlot accepted poly = true.
Proof.
  unfold isValidPlot. intros -> -> ->. reflexivity.
Qed.

End WithMath.

End OverlapFacts.

(** Some point is inside both polygons. *)
Definition interiorsOverlap (p q : list Point) : Prop :=
  exists pt, pointInPolygon pt p = true /\ pointInPolygon pt q = true.

(** A plot whose polygon is [square20], and the same square moved by 10
    along both axes. *)
Definition square20Plot : Plot :=
  mkPlot "plot_strip_0" square20 false 400 [] SUBURBAN_STRIP [].
Definition square20Moved : list Point :=
  [mkPoint 10 10; mkPoint 30 10; mkPoint 30 30; mkPoint 10 30].

Definition cornerOverlapChecked (M : MathLib) : Prop :=
  PlotGenerator.isValidPlot [square20Plot] square20Moved = false.

Lemma isValidPlot_rejects_corner_overlap : cornerOverlapChecked RefMath.math.
Proof. vm_compute. reflexivity. Qed.

(** The two enclosed plots that the enclosed pass creates on
    [squareLoop20], one per side of the loop. *)
Definition loop20PlotA : Plot :=
  mkPlot "plot_core_0"
    [mkPoint 18 18; mkPoint 18 2; mkPoint 2 2; mkPoint 2 18] true 256
    ["e_0"; "e_1"; "e_2"; "e_3"]%string URBAN_CORE
    ["n_0->n_1"; "n_1->n_2"; "n_2->n_3"; "n_3->n_0"]%string.
Definition loop20PlotB : Plot :=
  mkPlot "plot_core_1"
    [mkPoint 2 18; mkPoint 2 2; mkPoint 18 2; mkPoint 18 18] true 256
    ["e_0"; "e_3"; "e_2"; "e_1"]%string URBAN_CORE
    ["n_1->n_0"; "n_0->n_3"; "n_3->n_2"; "n_2->n_1"]%string.

Definition squareLoop20_pass (M : MathLib) : list Plot :=
  PlotGenerator.plots
    (@PlotGenerator.detectEnclosedPlots M testParams dryLand squareLoop20
       PlotGenerator.reset).

Lemma squareLoop20_enclosed_pass (sinF acosF : float -> float) :
  squareLoop20_pass (RefMath.math_with sinF acosF) = [loop20PlotA; loop20PlotB].
Proof. vm_compute. reflexivity. Qed.

Definition squareLoop20_plots (M : MathLib) (cityCenter : Point) : list Plot :=
  PlotGenerator.plots
    (@PlotGenerator.generate M testParams dryLand cityCenter squareLoop20).

(** On [squareLoop20], [generate()] keeps both enclosed plots, whatever
    [Math.sin] does to the strips. *)
Lemma squareLoop20_two_plots (sinF acosF : float -> float)
  (cityCenter : Point) :
  In loop20PlotA (squareLoop20_plots (RefMath.math_with sinF acosF) cityCenter)
  /\ In loop20PlotB
       (squareLoop20_plots (RefMath.math_with sinF acosF) cityCenter).
Proof.
  pose proof (@GenerateFacts.generate_keeps (RefMath.math_with sinF acosF)
                testParams dryLand cityCenter squareLoop20) as H.
  destruct H as [H _]; [vm_compute; lia|vm_compute; lia|].
  pose proof (squareLoop20_enclosed_pass sinF acosF) as E.
  unfold squareLoop20_pass in E. unfold squareLoop20_plots.
  split; apply H; rewrite E; simpl; auto.
Qed.

Lemma loop20_plots_overlap :
  p_id loop20PlotA <> p_id loop20PlotB
  /\ interiorsOverlap (p_points loop20PlotA) (p_points loop20PlotB).
Proof.
  split; [discriminate|].
  exists (mkPoint 10 10). split; vm_compute; reflexivity.
Qed.

(** C3 (the case the code misses). On the isolated square loop of side
    20, in a dry 500-by-500 world and for every city centre, [generate()]
    returns two enclosed plots with different ids that cover the same
    16-by-16 square.  The first is the walk round the inside of the loop,
    [n_0 -> n_1 -> n_2 -> n_3]; the second is the walk round the other side
    of the same loop, [n_1 -> n_0 -> n_3 -> n_2], the outer face.  Its area
    of 400 is not above [0.8 * width * height], so the "Outer World" test of
    [createEnclosedPlot] lets it through, and enclosed plots are never
    passed to [isValidPlot]. *)
Theorem generate_accepts_outer_face (sinF acosF : float -> float)
  (cityCenter : Point) :
  In loop20PlotA (squareLoop20_plots (RefMath.math_with sinF acosF) cityCenter)
  /\ In loop20PlotB
       (squareLoop20_plots (RefMath.math_with sinF acosF) cityCenter)
  /\ p_id loop20PlotA <> p_id loop20PlotB
  /\ interiorsOverlap (p_points loop20PlotA) (p_points loop20PlotB).
Proof.
  destruct (squareLoop20_two_plots sinF acosF cityCenter) as [HA HB].
  destruct loop20_plots_overlap as [Hid Hov].
  split; [exact HA|]. split; [exact HB|]. split; [exact Hid|exact Hov].
Qed.

(** Hence no two plots of [generate()] with different ids can be promised
    disjoint interiors. *)
Lemma plots_overlap_accepted :
  ~ (forall (M : MathLib) (params : GenerationParams)
       (isPointInWater : Point -> bool) (cityCenter : Point) (g : Graph)
       (p q : Plot),
        In p (PlotGenerator.plots
                (PlotGenerator.generate params isPointInWater cityCenter g)) ->
        In q (PlotGenerator.plots
                (PlotGenerator.generate params isPointInWater cityCenter g)) ->
        p_id p <> p_id q ->
        ~ interiorsOverlap (p_points p) (p_points q)).
Proof.
  intros H.
  destruct (squareLoop20_two_plots (fun _ => 0) (fun _ => 0) (mkPoint 250 250))
    as [HA HB].
  destruct loop20_plots_overlap as [Hid Hov].
  exact (H _ testParams dryLand (mkPoint 250 250) squareLoop20
           loop20PlotA loop20PlotB HA HB Hid Hov).
Qed.

(** ** Cleanup: what holds when the loop stops by itself *)

Module CleanupFacts.

Import Cleanup.

Section WithWorld.

Context {M : MathLib}.
Variable params : GenerationParams.
Variable isPointInWater : Point -> bool.
Variable cityCenter : Point.
Variable canFitBuilding : Graph -> Plot -> bool.

Let cleanupLoop := cleanupLoop params isPointInWater cityCenter canFitBuilding.

(** A plot kept by the filter of [cleanupPlots] failed both rejection
    tests. *)
Lemma keepPlot_passed (validator : Plot -> bool) (p : Plot) :
  PlotGenerator.keepPlot params validator p = true ->
  (p_area p <? minBuildingArea params) = false
  /\ (obb_width (getOBB (p_points p)) <? minEdgeLength params) = false.
Proof.
  unfold PlotGenerator.keepPlot.
  destruct (p_area p <? minBuildingArea params); [discriminate|].
  destruct (obb_width (getOBB (p_points p)) <? minEdgeLength params);
    [discriminate|].
  auto.
Qed.

(** When the loop stops by [break], the plots it leaves are those that the
    filter of the last [cleanupPlots] kept. *)
Lemma cleanupLoop_break_filtered (fuel : nat) (s : State) (spurs : bool)
  (removed : list string) (p : Plot) :
  stoppedByBreak (cleanupLoop fuel s spurs removed) = true ->
  In p (PlotGenerator.plots (blockGen (final (cleanupLoop fuel s spurs removed)))) ->
  exists g1, PlotGenerator.keepPlot params (canFitBuilding g1) p = true.
Proof.
  revert s spurs removed. subst cleanupLoop.
  induction fuel as [|fuel IH]; intros s spurs removed;
    cbn [Cleanup.cleanupLoop].
  - discriminate.
  - destruct (RoadGraph.pruneSpurs (graph s)) as [pruned g1].
    destruct (PlotGenerator.cleanupPlots params (canFitBuilding g1) (blockGen s))
      as [pg1 rm] eqn:Ecp.
    destruct (PlotGenerator.findEmptyRoadLoops g1 pg1) as [|e es].
    + cbn [stoppedByBreak final blockGen]. intros _ Hin. exists g1.
      unfold PlotGenerator.cleanupPlots in Ecp. injection Ecp as <- _.
      cbn [PlotGenerator.plots] in Hin. apply filter_In in Hin. apply Hin.
    + apply IH.
Qed.

End WithWorld.

End CleanupFacts.

(** A stable map: no edge is a spur and no traced loop is empty. *)
Definition stableMap {M : MathLib} (s : Cleanup.State) : bool :=
  forallb (fun e => negb (RoadGraph.isSpur (Cleanup.graph s) e))
          (edges (Cleanup.graph s))
  && (length (PlotGenerator.findEmptyRoadLoops (Cleanup.graph s)
                                               (Cleanup.blockGen s)) =? 0)%nat.

(** ** A chain of twelve blocks joined by eleven long roads

    Each block is a square loop of side 20 with two dead-end paths of two
    edges inside it, at opposite corners, so that the inside of the loop
    cannot be traced from any start node.  Consecutive blocks are joined by a
    single road, the first 150 long and each next one 5 shorter.  All edges
    are axis-aligned or diagonal. *)

Module Chain.

Definition headPoints (x0 : float) : list Point :=
  [mkPoint x0 0; mkPoint (x0 + 20) 0; mkPoint (x0 + 20) 20; mkPoint x0 20;
   mkPoint (x0 + 16) 16; mkPoint (x0 + 12) 12;
   mkPoint (x0 + 4) 4; mkPoint (x0 + 8) 8].

Definition headLinks (k : nat) : list (nat * nat) :=
  let b := (8 * k)%nat in
  [(b + 2, b + 3); (b + 3, b); (b, b + 1); (b + 1, b + 2);
   (b + 2, b + 4); (b + 4, b + 5); (b, b + 6); (b + 6, b + 7)]%nat.

Definition stemLinks (n : nat) : list (nat * nat) :=
  map (fun k => (8 * k + 1, 8 * (k + 1))%nat) (seq 0 (n - 1)).

Fixpoint headOffsets (n : nat) (x len : float) : list float :=
  match n with
  | O => []
  | S n' => x :: headOffsets n' (x + 20 + len) (len - 5)
  end.

Definition graph : Graph :=
  RoadGraph.graph
    (RoadGraph.build (flat_map headPoints (headOffsets 12 0 150))
                     (flat_map headLinks (seq 0 12) ++ stemLinks 12)).

(** The parameters of the repository's test suite, in a 2000-by-2000 world
    and with its "extreme" [minBuildingArea] of 10000. *)
Definition params : GenerationParams :=
  {| width := 2000; height := 2000; minBuildingArea := 10000;
     maxBuildingArea := 625; minEdgeLength := 4; minAngle := 30;
     buildingIrregularity := 0.2; fixedBuildingDepth := 15 |}.

Definition cityCenter : Point := mkPoint 1000 1000.

Section Runs.

Context {M : MathLib}.

(** [buildingGen.canFitBuilding]: any function. *)
Variable canFitBuilding : Graph -> Plot -> bool.

(** The map after [generateBlocks()]. *)
Definition start : Cleanup.State :=
  Cleanup.mkState graph
    (PlotGenerator.generate params dryLand cityCenter graph).

Definition plotTooSmall (p : Plot) : bool :=
  negb (p_area p >=? minBuildingArea params).

(** What two runs of [cleanup()] in succession do on [start]: whether the
    map is stable at the start, whether the first run stopped by itself,
    whether it leaves a plot below [minBuildingArea], and whether the second
    run removed no loop edge. *)
Definition observed : bool * bool * bool * bool :=
  let r1 := Cleanup.cleanup params dryLand cityCenter canFitBuilding start in
  let r2 := Cleanup.cleanup params dryLand cityCenter canFitBuilding
                            (Cleanup.final r1) in
  (stableMap start,
   Cleanup.stoppedByBreak r1,
   existsb plotTooSmall
     (PlotGenerator.plots (Cleanup.blockGen (Cleanup.final r1))),
   (length (Cleanup.loopEdgesRemoved r2) =? 0)%nat).

End Runs.

End Chain.

(** On the chain, started from the stable map that [generateBlocks()]
    leaves and whatever [canFitBuilding] answers: the first [cleanup()]
    removes roads in each iteration and exhausts its 10 iterations,
    the plots regenerated by its last iteration are left unfiltered, and the
    second [cleanup()] goes on removing edges. *)
Lemma chain_observed (canFitBuilding : Graph -> Plot -> bool) :
  @Chain.observed RefMath.math canFitBuilding = (true, false, true, false).
Proof. vm_compute. reflexivity. Qed.

Lemma tuple4_eq (a b c d a' b' c' d' : bool) :
  (a, b, c, d) = (a', b', c', d') -> a = a' /\ b = b' /\ c = c' /\ d = d'.
Proof. intros H. injection H as -> -> -> ->. auto. Qed.

Lemma chain_facts (canFitBuilding : Graph -> Plot -> bool) :
  @stableMap RefMath.math (@Chain.start RefMath.math) = true
  /\ Cleanup.stoppedByBreak
       (@Cleanup.cleanup RefMath.math Chain.params dryLand Chain.cityCenter
          canFitBuilding (@Chain.start RefMath.math)) = false
  /\ existsb Chain.plotTooSmall
       (PlotGenerator.plots
          (Cleanup.blockGen
             (Cleanup.final
                (@Cleanup.cleanup RefMath.math Chain.params dryLand
                   Chain.cityCenter canFitBuilding
                   (@Chain.start RefMath.math)))))
     = true
  /\ (length
        (Cleanup.loopEdgesRemoved
           (@Cleanup.cleanup RefMath.math Chain.params dryLand
              Chain.cityCenter canFitBuilding
              (Cleanup.final
                 (@Cleanup.cleanup RefMath.math Chain.params dryLand
                    Chain.cityCenter canFitBuilding
                    (@Chain.start RefMath.math)))))
      =? 0)%nat = false.
Proof. exact (@tuple4_eq _ _ _ _ _ _ _ _ (chain_observed canFitBuilding)). Qed.

(** C4 (the case the code misses). On the chain, whatever
    [canFitBuilding] answers, [cleanup()] exhausts its 10 iterations: each
    of them removes a road and calls [generateBlocks()], and the loop ends
    on the bound without a last [cleanupPlots].  The plots it returns are
    unfiltered, and one of them has an area that is not at least
    [minBuildingArea]. *)
Theorem cleanup_bound_returns_small_plot
  (canFitBuilding : Graph -> Plot -> bool) :
  Cleanup.stoppedByBreak
    (@Cleanup.cleanup RefMath.math Chain.params dryLand Chain.cityCenter
       canFitBuilding (@Chain.start RefMath.math)) = false
  /\ existsb Chain.plotTooSmall
       (PlotGenerator.plots
          (Cleanup.blockGen
             (Cleanup.final
                (@Cleanup.cleanup RefMath.math Chain.params dryLand
                   Chain.cityCenter canFitBuilding
                   (@Chain.start RefMath.math)))))
     = true.
Proof.
  exact (conj (proj1 (proj2 (chain_facts canFitBuilding)))
              (proj1 (proj2 (proj2 (chain_facts canFitBuilding))))).
Qed.

(** A run of [cleanup()] that stops at once: the square loop of side 20
    with its two enclosed plots, under the test parameters. *)
Module Loop20Run.

Definition math : MathLib :=
  RefMath.math_with (fun _ => 0) (fun _ => RefMath.PI / 2).

Definition start : Cleanup.State :=
  Cleanup.mkState squareLoop20
    (PlotGenerator.mkState [loop20PlotA; loop20PlotB] 2
       (halfEdges loop20PlotA ++ halfEdges loop20PlotB)).

Definition cityCenter : Point := mkPoint 250 250.

Definition canFit : Graph -> Plot -> bool := fun _ _ => true.

Lemma run_stops :
  Cleanup.stoppedByBreak
    (@Cleanup.cleanup math testParams dryLand cityCenter canFit start) = true.
Proof. vm_compute. reflexivity. Qed.

Lemma run_keepsPlotA :
  In loop20PlotA
     (PlotGenerator.plots
        (Cleanup.blockGen
           (Cleanup.final
              (@Cleanup.cleanup math testParams dryLand cityCenter canFit
                                start)))).
Proof. vm_compute. left. reflexivity. Qed.

End Loop20Run.

(** ** The road graph under its primitives *)

(** Every change that [CityGenerator.ts] makes to [nodes], [edges] and
    [bridgeEdgeIds] after a reset goes through [addNode], [addEdge],
    [removeEdge] (alone or from [pruneSpurs]) and [bridgeEdgeIds.add]. *)
Module GraphOps.

Import RoadGraph.

Inductive Op : Type :=
| AddNode (point : Point)
| AddEdge (fromId toId : string)
| MarkBridge (edgeId : string)
| RemoveEdge (edgeId : string)
| PruneSpurs.

Definition withGraph (s : State) (g : Graph) : State :=
  mkState g (nodeIdCounter s) (edgeIdCounter s) (lastStepEdgeIds s).

Definition apply (s : State) (op : Op) : State :=
  match op with
  | AddNode point => snd (addNode s point)
  | AddEdge fromId toId => snd (addEdge s fromId toId)
  | MarkBridge edgeId =>
      withGraph s (mkGraph (nodes (graph s)) (edges (graph s))
                           (StrSet.add edgeId (bridgeEdgeIds (graph s))))
  | RemoveEdge edgeId => withGraph s (removeEdge (graph s) edgeId)
  | PruneSpurs => withGraph s (snd (pruneSpurs (graph s)))
  end.

(** The state after the calls [ops], made on the reset graph. *)
Definition run (ops : list Op) : State := fold_left apply ops empty.

End GraphOps.

(** Two edges join the same unordered pair of nodes. *)
Definition sameEnds (e1 e2 : Edge) : Prop :=
  (startNodeId e1 = startNodeId e2 /\ endNodeId e1 = endNodeId e2)
  \/ (startNodeId e1 = endNodeId e2 /\ endNodeId e1 = startNodeId e2).

(** An adjacency entry [v] of the node stored under [k] is backed by an
    edge between [k] and [v]. *)
Definition backed (g : Graph) : Prop :=
  forall k n v, In (k, n) (nodes g) -> In v (connections n) ->
    exists e, In e (edges g) /\ RoadGraph.connects k v e = true.

(** What [removeEdge] and [pruneSpurs] rely on: edge ids are unique and no
    adjacency list repeats a neighbour. *)
Definition wellFormed (g : Graph) : Prop :=
  NoDup (map e_id (edges g))
  /\ (forall k n, In (k, n) (nodes g) -> NoDup (connections n)).

Module GraphFacts.

Import RoadGraph.

(** *** Counters print to distinct ids *)

Lemma to_uint_nonnil (k : nat) : Nat.to_uint k <> Decimal.Nil.
Proof.
  pose proof (DecimalNat.Unsigned.to_of (Nat.to_uint k)) as E.
  rewrite DecimalNat.Unsigned.of_to in E. rewrite E.
  apply DecimalFacts.unorm_nonnil.
Qed.

Lemma decimal_inj (n m : nat) : decimal n = decimal m -> n = m.
Proof.
  unfold decimal. intros H.
  pose proof (NilZero.usu _ (to_uint_nonnil n)) as Hn.
  pose proof (NilZero.usu _ (to_uint_nonnil m)) as Hm.
  rewrite H in Hn. rewrite Hn in Hm. injection Hm as Hm.
  apply DecimalNat.Unsigned.to_uint_inj. exact Hm.
Qed.

(** *** The node map *)

Lemma lookup_updateNode (x id : string) (f : Node -> Node)
  (m : list (string * Node)) :
  StrSet.lookup x (updateNode id f m)
  = if String.eqb x id then option_map f (StrSet.lookup x m)
    else StrSet.lookup x m.
Proof.
  induction m as [|[k v] m IH]; simpl.
  - destruct (String.eqb x id); reflexivity.
  - destruct (String.eqb k id) eqn:Ek; simpl.
    + apply String.eqb_eq in Ek. subst k.
      destruct (String.eqb id x) eqn:Ex.
      * apply String.eqb_eq in Ex. subst x. rewrite String.eqb_refl. reflexivity.
      * rewrite IH. reflexivity.
    + destruct (String.eqb k x) eqn:Ex.
      * apply String.eqb_eq in Ex. subst x. rewrite Ek. reflexivity.
      * exact IH.
Qed.

Lemma lookup_deleteNode (x id : string) (m : list (string * Node)) :
  StrSet.lookup x (deleteNode id m)
  = if String.eqb x id then None else StrSet.lookup x m.
Proof.
  induction m as [|[k v] m IH]; simpl.
  - destruct (String.eqb x id); reflexivity.
  - destruct (String.eqb k id) eqn:Ek; simpl.
    + apply String.eqb_eq in Ek. subst k. rewrite IH.
      destruct (String.eqb x id) eqn:Ex; [reflexivity|].
      rewrite String.eqb_sym, Ex. reflexivity.
    + rewrite IH. destruct (String.eqb k x) eqn:Ex.
      * apply String.eqb_eq in Ex. subst x. rewrite Ek. reflexivity.
      * reflexivity.
Qed.

Lemma In_updateNode (id : string) (f : Node -> Node) (m : list (string * Node))
  (k : string) (n : Node) :
  In (k, n) (updateNode id f m) ->
  exists n0, In (k, n0) m
             /\ n = (if String.eqb k id then f n0 else n0).
Proof.
  unfold updateNode. intros H. apply in_map_iff in H.
  destruct H as ([k0 n0] & E & Hin). simpl in E.
  destruct (String.eqb k0 id) eqn:Ek; injection E as <- <-;
    exists n0; rewrite Ek; auto.
Qed.

Lemma In_deleteNode (id : string) (m : list (string * Node))
  (kv : string * Node) :
  In kv (deleteNode id m) -> In kv m.
Proof. unfold deleteNode. intros H. apply filter_In in H. apply H. Qed.

Lemma In_dropIfIsolated (id : string) (m : list (string * Node))
  (kv : string * Node) :
  In kv (dropIfIsolated id m) -> In kv m.
Proof.
  unfold dropIfIsolated.
  destruct (StrSet.lookup id m) as [n|]; [|auto].
  destruct (length (connections n) =? 0)%nat; [apply In_deleteNode|auto].
Qed.

Lemma In_setNode (id : string) (node : Node) (m : list (string * Node))
  (k : string) (n : Node) :
  In (k, n) (setNode id node m) -> n = node \/ In (k, n) m.
Proof.
  induction m as [|[k0 v0] m IH]; simpl.
  - intros [[= _ <-]|[]]. left. reflexivity.
  - destruct (String.eqb k0 id); simpl.
    + intros [[= _ <-]|H]; auto.
    + intros [H|H]; [auto|]. destruct (IH H); auto.
Qed.

(** *** The edge list *)

Lemma In_spliceEdge (id : string) (es : list Edge) (e : Edge) :
  In e (spliceEdge id es) -> In e es.
Proof.
  induction es as [|e0 es IH]; simpl; [auto|].
  destruct (String.eqb (e_id e0) id); simpl; [auto|].
  intros [H|H]; auto.
Qed.

(** [removeEdge] removes the edge that it found. *)
Lemma In_spliceEdge_found (id : string) (es : list Edge) (e found : Edge) :
  find (fun e => String.eqb (e_id e) id) es = Some found ->
  In e es -> e = found \/ In e (spliceEdge id es).
Proof.
  induction es as [|e0 es IH]; simpl; [intros _ []|].
  destruct (String.eqb (e_id e0) id).
  - intros [= <-] [H|H]; auto.
  - intros Hf [H|H]; [right; left; exact H|].
    destruct (IH Hf H); [auto|right; right; assumption].
Qed.

Lemma spliceEdge_ids_incl (id : string) (es : list Edge) (x : string) :
  In x (map e_id (spliceEdge id es)) -> In x (map e_id es).
Proof.
  intros H. apply in_map_iff in H. destruct H as (e & <- & H).
  apply in_map. eapply In_spliceEdge; eauto.
Qed.

Lemma spliceEdge_NoDup (id : string) (es : list Edge) :
  NoDup (map e_id es) -> NoDup (map e_id (spliceEdge id es)).
Proof.
  induction es as [|e0 es IH]; simpl; [auto|].
  intros H. inversion H as [|? ? Hn Hr]; subst.
  destruct (String.eqb (e_id e0) id); simpl; [exact Hr|].
  constructor; [|auto].
  intros Hin. apply Hn. eapply spliceEdge_ids_incl; eauto.
Qed.

(** With unique ids, the removed edge is gone. *)
Lemma spliceEdge_removed (es : list Edge) (e : Edge) :
  NoDup (map e_id es) -> ~ In e (spliceEdge (e_id e) es).
Proof.
  induction es as [|e0 es IH]; simpl; [auto|].
  intros H. inversion H as [|? ? Hn Hr]; subst.
  destruct (String.eqb (e_id e0) (e_id e)) eqn:E.
  - apply String.eqb_eq in E. intros Hin. apply Hn. rewrite E.
    apply in_map. exact Hin.
  - simpl. intros [->|Hin]; [rewrite String.eqb_refl in E; discriminate|].
    exact (IH Hr Hin).
Qed.

Lemma find_id_In (id : string) (es : list Edge) (found : Edge) :
  find (fun e => String.eqb (e_id e) id) es = Some found ->
  In found es /\ e_id found = id.
Proof.
  intros H. apply find_some in H. destruct H as [H1 H2].
  apply String.eqb_eq in H2. auto.
Qed.

(** With unique ids, looking an edge of the list up by its id finds it. *)
Lemma find_id_unique (es : list Edge) (e : Edge) :
  NoDup (map e_id es) -> In e es ->
  find (fun e0 => String.eqb (e_id e0) (e_id e)) es = Some e.
Proof.
  induction es as [|e0 es IH]; simpl; [intros _ []|].
  intros H Hin. inversion H as [|? ? Hn Hr]; subst.
  destruct (String.eqb (e_id e0) (e_id e)) eqn:E.
  - destruct Hin as [->|Hin]; [reflexivity|].
    apply String.eqb_eq in E. exfalso. apply Hn. rewrite E.
    apply in_map. exact Hin.
  - destruct Hin as [->|Hin]; [rewrite String.eqb_refl in E; discriminate|].
    auto.
Qed.

(** *** Simple edge lists *)

Lemma connects_sameEnds (e1 e2 : Edge) :
  connects (startNodeId e1) (endNodeId e1) e2 = true <-> sameEnds e2 e1.
Proof.
  unfold connects, sameEnds.
  rewrite orb_true_iff, !andb_true_iff, !String.eqb_eq. tauto.
Qed.

Lemma sameEnds_sym (e1 e2 : Edge) : sameEnds e1 e2 -> sameEnds e2 e1.
Proof. unfold sameEnds. intuition. Qed.

(** No self-loop, and no two edges of the list join the same pair. *)
Fixpoint simple (es : list Edge) : Prop :=
  match es with
  | [] => True
  | e :: es' =>
      startNodeId e <> endNodeId e
      /\ (forall e', In e' es' -> ~ sameEnds e e')
      /\ simple es'
  end.

Lemma simple_snoc (es : list Edge) (e : Edge) :
  simple es -> startNodeId e <> endNodeId e ->
  (forall e', In e' es -> ~ sameEnds e' e) ->
  simple (es ++ [e]).
Proof.
  induction es as [|e0 es IH]; simpl.
  - intros _ H _. repeat split; [exact H|intros e' []].
  - intros (H0 & H1 & H2) He Hall. repeat split.
    + exact H0.
    + intros e' Hin. apply in_app_or in Hin.
      destruct Hin as [Hin|[<-|[]]]; [auto|]. apply Hall. left. reflexivity.
    + apply IH; auto.
Qed.

Lemma simple_splice (id : string) (es : list Edge) :
  simple es -> simple (spliceEdge id es).
Proof.
  induction es as [|e0 es IH]; simpl; [auto|].
  intros (H0 & H1 & H2).
  destruct (String.eqb (e_id e0) id); simpl; [exact H2|].
  repeat split; [exact H0| |auto].
  intros e' Hin. apply H1. eapply In_spliceEdge; eauto.
Qed.

Lemma simple_In (es : list Edge) (e : Edge) :
  simple es -> In e es -> startNodeId e <> endNodeId e.
Proof.
  induction es as [|e0 es IH]; simpl; [intros _ []|].
  intros (H0 & _ & H2) [<-|Hin]; auto.
Qed.

Lemma simple_nth_lt (es : list Edge) (i j : nat) (e1 e2 : Edge) :
  simple es -> (i < j)%nat ->
  nth_error es i = Some e1 -> nth_error es j = Some e2 -> ~ sameEnds e1 e2.
Proof.
  revert i j. induction es as [|e0 es IH]; intros i j Hs Hlt H1 H2.
  - destruct i; discriminate.
  - destruct Hs as (H0 & Hall & Hs).
    destruct j as [|j]; [lia|]. simpl in H2.
    destruct i as [|i]; simpl in H1.
    + injection H1 as <-. apply Hall. eapply nth_error_In; eauto.
    + apply (IH i j); auto. lia.
Qed.

Lemma simple_nth (es : list Edge) (i j : nat) (e1 e2 : Edge) :
  simple es -> i <> j ->
  nth_error es i = Some e1 -> nth_error es j = Some e2 -> ~ sameEnds e1 e2.
Proof.
  intros Hs Hne H1 H2.
  destruct (Nat.lt_ge_cases i j) as [Hlt|Hge].
  - eapply simple_nth_lt; eauto.
  - intros H. apply sameEnds_sym in H. revert H.
    eapply (@simple_nth_lt es j i); eauto. lia.
Qed.

(** *** The invariant of the primitives *)

(** Every edge id was issued by the counter. *)
Definition issued (s : State) : Prop :=
  forall e, In e (edges (graph s)) ->
    exists k, (k < edgeIdCounter s)%nat /\ e_id e = ("e_" ++ decimal k)%string.

Record Inv (s : State) : Prop := mkInv {
  inv_issued : issued s;
  inv_ids : NoDup (map e_id (edges (graph s)));
  inv_simple : simple (edges (graph s));
  inv_conn : forall k n, In (k, n) (nodes (graph s)) -> NoDup (connections n);
  inv_backed : backed (graph s);
}.

Lemma Inv_empty : Inv empty.
Proof.
  constructor; simpl.
  - intros e [].
  - constructor.
  - exact I.
  - intros k n [].
  - intros k n v [].
Qed.

Lemma Inv_addNode (s : State) (point : Point) :
  Inv s -> Inv (snd (addNode s point)).
Proof.
  intros [H1 H2 H3 H4 H5]. constructor; unfold issued, backed; simpl; auto.
  - intros k n Hin. apply In_setNode in Hin.
    destruct Hin as [->|Hin]; [constructor|eauto].
  - intros k n v Hin Hv. apply In_setNode in Hin.
    destruct Hin as [->|Hin]; [destruct Hv|].
    exact (H5 k n v Hin Hv).
Qed.

Lemma NoDup_snoc {A : Type} (l : list A) (x : A) :
  NoDup l -> ~ In x l -> NoDup (l ++ [x]).
Proof.
  intros Hl Hx. induction Hl as [|y l Hy Hl IH]; simpl.
  - constructor; [intros []|constructor].
  - constructor.
    + intros Hin. apply in_app_or in Hin. destruct Hin as [Hin|[<-|[]]].
      * exact (Hy Hin).
      * apply Hx. left. reflexivity.
    + apply IH. intros Hin. apply Hx. right. exact Hin.
Qed.

Lemma connects_comm (a b : string) (e : Edge) :
  connects a b e = connects b a e.
Proof. unfold connects. apply orb_comm. Qed.

Lemma Inv_addEdge (s : State) (fromId toId : string) :
  Inv s -> Inv (snd (addEdge s fromId toId)).
Proof.
  intros HI. unfold addEdge.
  destruct (String.eqb fromId toId) eqn:Eft; [exact HI|].
  destruct (existsb (connects fromId toId) (edges (graph s))) eqn:Eex;
    [exact HI|].
  destruct HI as [H1 H2 H3 H4 H5].
  assert (Hnone : forall e, In e (edges (graph s)) ->
                            connects fromId toId e = false).
  { intros e Hin. eapply existsb_false_In; eauto. }
  apply String.eqb_neq in Eft.
  constructor; unfold issued, backed; simpl.
  - intros e Hin. apply in_app_or in Hin. destruct Hin as [Hin|[<-|[]]].
    + destruct (H1 e Hin) as (k & Hk & E). exists k. split; [lia|exact E].
    + exists (edgeIdCounter s). split; [lia|reflexivity].
  - rewrite map_app. simpl. apply NoDup_snoc; [exact H2|].
    intros Hin. apply in_map_iff in Hin. destruct Hin as (e & E & Hin).
    destruct (H1 e Hin) as (k & Hk & E'). rewrite E' in E.
    injection E as E. apply decimal_inj in E. lia.
  - apply simple_snoc; [exact H3|exact Eft|].
    intros e' Hin Hs.
    assert (connects fromId toId e' = true) as Hc.
    { apply (connects_sameEnds (mkEdge EmptyString fromId toId) e'). exact Hs. }
    rewrite (Hnone e' Hin) in Hc. discriminate.
  - intros k n Hin.
    apply In_updateNode in Hin. destruct Hin as (n1 & Hin & ->).
    apply In_updateNode in Hin. destruct Hin as (n0 & Hin & ->).
    pose proof (H4 k n0 Hin) as Hnd.
    assert (Hfresh : forall b, (forall e, connects k b e = connects fromId toId e)
                               -> ~ In b (connections n0)).
    { intros b Hab Hb.
      destruct (H5 k n0 b Hin Hb) as (e & He & Hc).
      rewrite Hab, (Hnone e He) in Hc. discriminate. }
    destruct (String.eqb k fromId) eqn:Ekf, (String.eqb k toId) eqn:Ekt; simpl.
    + apply String.eqb_eq in Ekf, Ekt. congruence.
    + apply String.eqb_eq in Ekf. subst k. apply NoDup_snoc; [exact Hnd|].
      apply Hfresh. reflexivity.
    + apply String.eqb_eq in Ekt. subst k. apply NoDup_snoc; [exact Hnd|].
      apply Hfresh. intros e. apply connects_comm.
    + exact Hnd.
  - intros k n v Hin Hv.
    apply In_updateNode in Hin. destruct Hin as (n1 & Hin & ->).
    apply In_updateNode in Hin. destruct Hin as (n0 & Hin & ->).
    assert (Hold : In v (connections n0) ->
                   exists e, In e (edges (graph s) ++ [mkEdge ("e_" ++ decimal (edgeIdCounter s)) fromId toId])
                             /\ connects k v e = true).
    { intros Hv0. destruct (H5 k n0 v Hin Hv0) as (e & He & Hc).
      exists e. split; [apply in_or_app; left; exact He|exact Hc]. }
    assert (Hnew : forall a b, (a = fromId /\ b = toId) \/ (a = toId /\ b = fromId) ->
                   exists e, In e (edges (graph s) ++ [mkEdge ("e_" ++ decimal (edgeIdCounter s)) fromId toId])
                             /\ connects a b e = true).
    { intros a b Hab. eexists. split; [apply in_or_app; right; left; reflexivity|].
      unfold connects. simpl.
      destruct Hab as [[-> ->]|[-> ->]]; rewrite !String.eqb_refl; simpl;
        [reflexivity|apply orb_true_r]. }
    destruct (String.eqb k fromId) eqn:Ekf, (String.eqb k toId) eqn:Ekt;
      simpl in Hv.
    + apply String.eqb_eq in Ekf, Ekt. congruence.
    + apply String.eqb_eq in Ekf. subst k.
      apply in_app_or in Hv. destruct Hv as [Hv|[<-|[]]]; [auto|].
      apply Hnew. auto.
    + apply String.eqb_eq in Ekt. subst k.
      apply in_app_or in Hv. destruct Hv as [Hv|[<-|[]]]; [auto|].
      apply Hnew. auto.
    + auto.
Qed.

(** *** [removeEdge] *)

Lemma spliceEdge_notfound (id : string) (es : list Edge) :
  find (fun e => String.eqb (e_id e) id) es = None -> spliceEdge id es = es.
Proof.
  induction es as [|e0 es IH]; simpl; [auto|].
  destruct (String.eqb (e_id e0) id); [discriminate|].
  intros H. rewrite (IH H). reflexivity.
Qed.

Lemma removeEdge_edges (g : Graph) (id : string) :
  edges (removeEdge g id) = spliceEdge id (edges g).
Proof.
  unfold removeEdge.
  destruct (find _ (edges g)) eqn:E; simpl; [reflexivity|].
  symmetry. apply spliceEdge_notfound. exact E.
Qed.

Lemma removeEdge_bridges (g : Graph) (id : string) :
  bridgeEdgeIds (removeEdge g id) = bridgeEdgeIds g.
Proof. unfold removeEdge. destruct (find _ (edges g)); reflexivity. Qed.

Definition unlink (other : string) (n : Node) : Node :=
  withConnections
    (filter (fun id => negb (String.eqb id other)) (connections n)) n.

(** A node entry of the graph after [removeEdge] comes from an entry under
    the same key, whose adjacency list lost the other end of the edge. *)
Lemma removeEdge_nodes (g : Graph) (id : string) (k : string) (n : Node) :
  In (k, n) (nodes (removeEdge g id)) ->
  match find (fun e => String.eqb (e_id e) id) (edges g) with
  | None => In (k, n) (nodes g)
  | Some edge =>
      exists n0, In (k, n0) (nodes g)
        /\ n = (if String.eqb k (endNodeId edge)
                then unlink (startNodeId edge) else fun n => n)
                 ((if String.eqb k (startNodeId edge)
                   then unlink (endNodeId edge) else fun n => n) n0)
  end.
Proof.
  unfold removeEdge.
  destruct (find _ (edges g)) as [edge|]; simpl; [|auto].
  intros H. apply In_dropIfIsolated in H. apply In_dropIfIsolated in H.
  apply In_updateNode in H. destruct H as (n1 & H & ->).
  apply In_updateNode in H. destruct H as (n0 & H & ->).
  exists n0. split; [exact H|].
  destruct (String.eqb k (endNodeId edge)), (String.eqb k (startNodeId edge));
    reflexivity.
Qed.

Lemma In_unlink (other v : string) (n : Node) :
  In v (connections (unlink other n)) <-> In v (connections n) /\ v <> other.
Proof.
  unfold unlink. simpl. rewrite filter_In, negb_true_iff, String.eqb_neq.
  tauto.
Qed.

Lemma NoDup_unlink (other : string) (n : Node) :
  NoDup (connections n) -> NoDup (connections (unlink other n)).
Proof. unfold unlink. simpl. apply NoDup_filter. Qed.

Lemma wellFormed_removeEdge (g : Graph) (id : string) :
  wellFormed g -> wellFormed (removeEdge g id).
Proof.
  intros [Hids Hconn]. split.
  - rewrite removeEdge_edges. apply spliceEdge_NoDup. exact Hids.
  - intros k n Hin. apply removeEdge_nodes in Hin.
    destruct (find _ (edges g)) as [edge|]; [|eauto].
    destruct Hin as (n0 & Hin & ->). pose proof (Hconn k n0 Hin) as Hnd.
    destruct (String.eqb k (endNodeId edge)),
             (String.eqb k (startNodeId edge));
      repeat apply NoDup_unlink; exact Hnd.
Qed.

Lemma backed_removeEdge (g : Graph) (id : string) :
  backed g -> backed (removeEdge g id).
Proof.
  intros Hb k n v Hin Hv. rewrite removeEdge_edges.
  apply removeEdge_nodes in Hin.
  destruct (find _ (edges g)) as [edge|] eqn:Ef.
  - destruct Hin as (n0 & Hin & ->).
    assert (Hv0 : In v (connections n0)).
    { destruct (String.eqb k (endNodeId edge)),
               (String.eqb k (startNodeId edge));
        repeat (apply In_unlink in Hv; destruct Hv as [Hv _]); exact Hv. }
    destruct (Hb k n0 v Hin Hv0) as (e & He & Hc).
    destruct (@In_spliceEdge_found _ _ _ _ Ef He) as [->|He']; [|eauto].
    exfalso. unfold connects in Hc.
    rewrite orb_true_iff, !andb_true_iff, !String.eqb_eq in Hc.
    destruct Hc as [[Hs He0]|[Hs He0]].
    + (* k is the start, v the end *)
      rewrite <- Hs, String.eqb_refl in Hv.
      destruct (String.eqb (startNodeId edge) (endNodeId edge)).
      * apply In_unlink in Hv. destruct Hv as [Hv _].
        apply In_unlink in Hv. destruct Hv as [_ Hv]. congruence.
      * apply In_unlink in Hv. destruct Hv as [_ Hv]. congruence.
    + (* k is the end, v the start *)
      rewrite <- He0, String.eqb_refl in Hv.
      apply In_unlink in Hv. destruct Hv as [_ Hv]. congruence.
  - rewrite (@spliceEdge_notfound _ _ Ef). eauto.
Qed.

Lemma Inv_removeEdge (s : State) (id : string) :
  Inv s -> Inv (GraphOps.withGraph s (removeEdge (graph s) id)).
Proof.
  intros [H1 H2 H3 H4 H5].
  destruct (@wellFormed_removeEdge (graph s) id (conj H2 H4)) as [W1 W2].
  constructor; unfold issued; simpl; auto.
  - intros e Hin. rewrite removeEdge_edges in Hin.
    apply In_spliceEdge in Hin. auto.
  - rewrite removeEdge_edges. apply simple_splice. exact H3.
  - apply backed_removeEdge. exact H5.
Qed.

(** *** [pruneSpurs] *)

Definition pruneStep (st : bool * Graph) (e : Edge) : bool * Graph :=
  if isSpur (snd st) e then (true, removeEdge (snd st) (e_id e)) else st.

Lemma pruneSpurs_fold (g : Graph) :
  pruneSpurs g = fold_left pruneStep (rev (edges g)) (false, g).
Proof. reflexivity. Qed.

(** What [removeEdge] preserves, [pruneSpurs] preserves. *)
Lemma pruneSpurs_preserves (P : Graph -> Prop) :
  (forall g id, P g -> P (removeEdge g id)) ->
  forall g, P g -> P (snd (pruneSpurs g)).
Proof.
  intros Hrm g. rewrite pruneSpurs_fold.
  generalize (rev (edges g)) as l. generalize false as b.
  intros b l. revert b g.
  induction l as [|e l IH]; intros b g Hg; simpl; [exact Hg|].
  unfold pruneStep at 2. simpl.
  destruct (isSpur g e); apply IH; auto.
Qed.

Lemma Inv_pruneSpurs (s : State) :
  Inv s -> Inv (GraphOps.withGraph s (snd (pruneSpurs (graph s)))).
Proof.
  intros HI.
  pose (P := fun g => Inv (GraphOps.withGraph s g)).
  assert (HP : P (graph s)).
  { unfold P. destruct s as [g a b c]. exact HI. }
  refine (@pruneSpurs_preserves P _ (graph s) HP).
  intros g id Hg. unfold P in *.
  exact (@Inv_removeEdge (GraphOps.withGraph s g) id Hg).
Qed.

Lemma Inv_apply (s : State) (op : GraphOps.Op) :
  Inv s -> Inv (GraphOps.apply s op).
Proof.
  intros HI. destruct op; simpl.
  - apply Inv_addNode. exact HI.
  - apply Inv_addEdge. exact HI.
  - destruct HI as [H1 H2 H3 H4 H5]. constructor; auto.
  - apply Inv_removeEdge. exact HI.
  - apply Inv_pruneSpurs. exact HI.
Qed.

Lemma Inv_run (ops : list GraphOps.Op) : Inv (GraphOps.run ops).
Proof.
  unfold GraphOps.run. generalize Inv_empty. generalize empty as s.
  induction ops as [|op ops IH]; intros s HI; simpl; [exact HI|].
  apply IH. apply Inv_apply. exact HI.
Qed.

Lemma Inv_fold_addNode (points : list Point) (s : State) :
  Inv s -> Inv (fold_left (fun s p => snd (addNode s p)) points s).
Proof.
  revert s. induction points as [|p ps IH]; intros s HI; simpl; [exact HI|].
  apply IH. apply Inv_addNode. exact HI.
Qed.

Lemma Inv_build (points : list Point) (links : list (nat * nat)) :
  Inv (build points links).
Proof.
  unfold build.
  generalize (Inv_fold_addNode points Inv_empty).
  generalize (fold_left (fun s p => snd (addNode s p)) points empty) as s.
  induction links as [|l ls IH]; intros s HI; simpl; [exact HI|].
  apply IH. apply Inv_addEdge. exact HI.
Qed.

Lemma Inv_wellFormed (s : State) : Inv s -> wellFormed (graph s).
Proof. intros [H1 H2 H3 H4 H5]. split; assumption. Qed.

(** *** Spurs *)

Lemma lookup_In (x : string) (m : list (string * Node)) (n : Node) :
  StrSet.lookup x m = Some n -> In (x, n) m.
Proof.
  induction m as [|[k v] m IH]; simpl; [discriminate|].
  destruct (String.eqb k x) eqn:E.
  - intros [= ->]. apply String.eqb_eq in E. subst k. left. reflexivity.
  - intros H. right. auto.
Qed.

Lemma lookup_dropIfIsolated (x id : string) (m : list (string * Node)) :
  StrSet.lookup x (dropIfIsolated id m) = None
  \/ StrSet.lookup x (dropIfIsolated id m) = StrSet.lookup x m.
Proof.
  unfold dropIfIsolated.
  destruct (StrSet.lookup id m) as [n|]; [|right; reflexivity].
  destruct (length (connections n) =? 0)%nat; [|right; reflexivity].
  rewrite lookup_deleteNode. destruct (String.eqb x (n_id n)); auto.
Qed.

Lemma filter_absent (other : string) (l : list string) :
  ~ In other l ->
  filter (fun id => negb (String.eqb id other)) l = l.
Proof.
  induction l as [|x l IH]; simpl; [auto|].
  intros H. destruct (String.eqb x other) eqn:E.
  - apply String.eqb_eq in E. exfalso. apply H. left. exact E.
  - simpl. rewrite IH; [reflexivity|]. intros Hin. apply H. right. exact Hin.
Qed.

(** Without repetitions, unlinking a neighbour shortens the adjacency list
    by one entry at most. *)
Lemma filter_one_length (other : string) (l : list string) :
  NoDup l ->
  (length l <= S (length (filter (fun id => negb (String.eqb id other)) l)))%nat.
Proof.
  induction 1 as [|x l Hx Hl IH]; simpl; [lia|].
  destruct (String.eqb x other) eqn:E; simpl; [|lia].
  apply String.eqb_eq in E. subst x. rewrite (@filter_absent other l Hx). lia.
Qed.

Lemma filter_length_le (other : string) (l : list string) :
  (length (filter (fun id => negb (String.eqb id other)) l) <= length l)%nat.
Proof. apply filter_length_le. Qed.

(** The degree of a node after [removeEdge], for an edge between two
    different nodes: the node is gone, or its degree is the former one, less
    one at most, and unchanged away from the two ends. *)
Lemma degree_removeEdge (g : Graph) (id : string) (edge : Edge) (x : string)
  (d' : nat) :
  wellFormed g ->
  find (fun e => String.eqb (e_id e) id) (edges g) = Some edge ->
  startNodeId edge <> endNodeId edge ->
  degree (removeEdge g id) x = Some d' ->
  exists d, degree g x = Some d
            /\ (d' <= d)%nat /\ (d <= S d')%nat
            /\ (x <> startNodeId edge -> x <> endNodeId edge -> d' = d).
Proof.
  intros [_ Hconn] Ef Hne. unfold removeEdge, degree. rewrite Ef. simpl.
  fold (unlink (endNodeId edge)). fold (unlink (startNodeId edge)).
  match goal with
  | |- context [dropIfIsolated ?b (dropIfIsolated ?a ?m)] =>
      destruct (lookup_dropIfIsolated x b (dropIfIsolated a m)) as [->| ->];
        [discriminate|];
      destruct (lookup_dropIfIsolated x a m) as [->| ->]; [discriminate|]
  end.
  rewrite !lookup_updateNode.
  destruct (StrSet.lookup x (nodes g)) as [n0|] eqn:El;
    [|destruct (String.eqb x (endNodeId edge)),
               (String.eqb x (startNodeId edge)); discriminate].
  pose proof (Hconn x n0 (@lookup_In _ _ _ El)) as Hnd.
  pose proof (@filter_one_length (endNodeId edge) _ Hnd) as L1.
  pose proof (@filter_one_length (startNodeId edge) _ Hnd) as L2.
  pose proof (filter_length_le (endNodeId edge) (connections n0)) as L3.
  pose proof (filter_length_le (startNodeId edge) (connections n0)) as L4.
  destruct (String.eqb x (endNodeId edge)) eqn:Ee,
           (String.eqb x (startNodeId edge)) eqn:Es; simpl.
  - apply String.eqb_eq in Ee, Es. congruence.
  - intros [= <-]. exists (length (connections n0)).
    apply String.eqb_eq in Ee.
    split; [reflexivity|]. split; [exact L4|]. split; [exact L2|congruence].
  - intros [= <-]. exists (length (connections n0)).
    apply String.eqb_eq in Es.
    split; [reflexivity|]. split; [exact L3|]. split; [exact L1|congruence].
  - intros [= <-]. exists (length (connections n0)).
    split; [reflexivity|]. split; [lia|]. split; [lia|reflexivity].
Qed.

Lemma isSpur_true (g : Graph) (e : Edge) :
  isSpur g e = true <->
  exists d1 d2, degree g (startNodeId e) = Some d1
                /\ degree g (endNodeId e) = Some d2
                /\ ((d1 = 1 /\ 3 <= d2) \/ (d2 = 1 /\ 3 <= d1))%nat.
Proof.
  unfold isSpur.
  destruct (degree g (startNodeId e)) as [d1|],
           (degree g (endNodeId e)) as [d2|].
  - rewrite orb_true_iff, !andb_true_iff, !Nat.eqb_eq, !Nat.leb_le. split.
    + intros H. exists d1, d2. auto.
    + intros (a & b & [= <-] & [= <-] & H). exact H.
  - split; [discriminate|]. intros (a & b & _ & H & _). discriminate.
  - split; [discriminate|]. intros (a & b & H & _). discriminate.
  - split; [discriminate|]. intros (a & b & H & _). discriminate.
Qed.

(** Removing a spur makes no other edge a spur. *)
Lemma no_new_spur (g : Graph) (id : string) (edge e' : Edge) :
  wellFormed g ->
  find (fun e => String.eqb (e_id e) id) (edges g) = Some edge ->
  isSpur g edge = true ->
  isSpur (removeEdge g id) e' = true -> isSpur g e' = true.
Proof.
  intros Hwf Ef Hspur Hs'.
  apply isSpur_true in Hspur. destruct Hspur as (da & db & Ea & Eb & Hab).
  assert (Hne : startNodeId edge <> endNodeId edge).
  { intros E. rewrite E in Ea. rewrite Ea in Eb. injection Eb as <-. lia. }
  apply isSpur_true in Hs'. destruct Hs' as (dx' & dy' & Ex' & Ey' & Hxy).
  destruct (@degree_removeEdge _ _ _ _ _ Hwf Ef Hne Ex') as (dx & Ex & X1 & X2 & X3).
  destruct (@degree_removeEdge _ _ _ _ _ Hwf Ef Hne Ey') as (dy & Ey & Y1 & Y2 & Y3).
  apply isSpur_true. exists dx, dy. split; [exact Ex|]. split; [exact Ey|].
  assert (Hx : (dx' = 1 -> dx = 1)%nat).
  { intros H1.
    destruct (string_dec (startNodeId e') (startNodeId edge)) as [E|E].
    - rewrite E, Ea in Ex. injection Ex as <-. lia.
    - destruct (string_dec (startNodeId e') (endNodeId edge)) as [E2|E2].
      + rewrite E2, Eb in Ex. injection Ex as <-. lia.
      + specialize (X3 E E2). lia. }
  assert (Hy : (dy' = 1 -> dy = 1)%nat).
  { intros H1.
    destruct (string_dec (endNodeId e') (startNodeId edge)) as [E|E].
    - rewrite E, Ea in Ey. injection Ey as <-. lia.
    - destruct (string_dec (endNodeId e') (endNodeId edge)) as [E2|E2].
      + rewrite E2, Eb in Ey. injection Ey as <-. lia.
      + specialize (Y3 E E2). lia. }
  lia.
Qed.

Lemma same_id_eq (es : list Edge) (e1 e2 : Edge) :
  NoDup (map e_id es) -> In e1 es -> In e2 es -> e_id e1 = e_id e2 -> e1 = e2.
Proof.
  intros H H1 H2 E.
  pose proof (@find_id_unique _ _ H H1) as F1.
  pose proof (@find_id_unique _ _ H H2) as F2.
  rewrite E in F1. congruence.
Qed.

Lemma removeEdge_edges_incl (g : Graph) (id : string) :
  incl (edges (removeEdge g id)) (edges g).
Proof.
  intros e H. rewrite removeEdge_edges in H. eapply In_spliceEdge; eauto.
Qed.

Lemma pruneFold_no_spur (g0 : Graph) (l : list Edge) :
  NoDup (map e_id (edges g0)) ->
  forall (b : bool) (cur : Graph) (done : list Edge),
    wellFormed cur -> incl (edges cur) (edges g0) -> incl l (edges g0) ->
    (forall e', In e' done -> In e' (edges cur) -> isSpur cur e' = false) ->
    wellFormed (snd (fold_left pruneStep l (b, cur)))
    /\ incl (edges (snd (fold_left pruneStep l (b, cur)))) (edges g0)
    /\ (forall e', In e' done \/ In e' l ->
                   In e' (edges (snd (fold_left pruneStep l (b, cur)))) ->
                   isSpur (snd (fold_left pruneStep l (b, cur))) e' = false).
Proof.
  intros Hids. induction l as [|e l IH]; intros b cur done Hwf Hcur Hl Hdone.
  - simpl. split; [exact Hwf|]. split; [exact Hcur|].
    intros e' [H|[]]. auto.
  - simpl.
    assert (Estep : pruneStep (b, cur) e
                    = if isSpur cur e then (true, removeEdge cur (e_id e))
                      else (b, cur)) by reflexivity.
    rewrite Estep. clear Estep.
    assert (Hl' : incl l (edges g0)) by (intros x Hx; apply Hl; right; exact Hx).
    destruct (isSpur cur e) eqn:Hspur.
    + assert (Hwf' : wellFormed (removeEdge cur (e_id e)))
        by (apply wellFormed_removeEdge; exact Hwf).
      assert (Hcur' : incl (edges (removeEdge cur (e_id e))) (edges g0)).
      { intros x Hx. apply Hcur. eapply removeEdge_edges_incl; eauto. }
      destruct (IH true (removeEdge cur (e_id e)) (e :: done) Hwf' Hcur' Hl')
        as (R1 & R2 & R3).
      { intros e' Hin Hin'.
        destruct (find (fun e0 => String.eqb (e_id e0) (e_id e)) (edges cur))
          as [edge|] eqn:Ef.
        - destruct (@find_id_In _ _ _ Ef) as [Hedge Eid].
          assert (edge = e).
          { apply (@same_id_eq (edges g0)); auto. apply Hl. left. reflexivity. }
          subst edge.
          destruct Hin as [<-|Hin].
          + exfalso. rewrite removeEdge_edges in Hin'.
            exact (@spliceEdge_removed _ _ (proj1 Hwf) Hin').
          + destruct (isSpur (removeEdge cur (e_id e)) e') eqn:Hs';
              [|reflexivity].
            rewrite <- (Hdone e' Hin (@removeEdge_edges_incl _ _ _ Hin')).
            symmetry. eapply no_new_spur; eauto.
        - assert (Eg : removeEdge cur (e_id e) = cur)
            by (unfold removeEdge; rewrite Ef; reflexivity).
          rewrite Eg in *.
          destruct Hin as [<-|Hin]; [|auto].
          exfalso. pose proof (find_none _ _ Ef _ Hin') as Hf.
          simpl in Hf. rewrite String.eqb_refl in Hf. discriminate. }
      split; [exact R1|]. split; [exact R2|].
      intros e' [H|[<-|H]] Hin'; apply R3; simpl; auto.
    + destruct (IH b cur (e :: done) Hwf Hcur Hl') as (R1 & R2 & R3).
      { intros e' [<-|Hin] Hin'; auto. }
      split; [exact R1|]. split; [exact R2|].
      intros e' [H|[<-|H]] Hin'; apply R3; simpl; auto.
Qed.

(** After [pruneSpurs] no edge of the graph is a spur. *)
Lemma pruneSpurs_no_spur (g : Graph) (e : Edge) :
  wellFormed g ->
  In e (edges (snd (pruneSpurs g))) -> isSpur (snd (pruneSpurs g)) e = false.
Proof.
  intros Hwf Hin. rewrite pruneSpurs_fold in *.
  destruct (@pruneFold_no_spur g (rev (edges g)) (proj1 Hwf) false g []
              Hwf (fun x H => H)) as (_ & R2 & R3).
  - intros x Hx. apply in_rev. exact Hx.
  - intros e' [].
  - apply R3; [|exact Hin]. right. apply in_rev. rewrite rev_involutive.
    apply R2. exact Hin.
Qed.

Lemma pruneFold_fixed (g : Graph) (l : list Edge) (b : bool) :
  (forall e, In e l -> isSpur g e = false) ->
  fold_left pruneStep l (b, g) = (b, g).
Proof.
  induction l as [|e l IH]; simpl; [auto|].
  intros H. unfold pruneStep at 2. simpl.
  rewrite (H e (or_introl eq_refl)). apply IH.
  intros e' He'. apply H. right. exact He'.
Qed.

(** A graph without spurs is left as it is. *)
Lemma pruneSpurs_fixed (g : Graph) :
  (forall e, In e (edges g) -> isSpur g e = false) ->
  pruneSpurs g = (false, g).
Proof.
  intros H. rewrite pruneSpurs_fold. apply pruneFold_fixed.
  intros e He. apply H. apply in_rev. exact He.
Qed.


Lemma pruneSpurs_edges_incl (g : Graph) :
  incl (edges (snd (pruneSpurs g))) (edges g).
Proof.
  apply (@pruneSpurs_preserves (fun g' => incl (edges g') (edges g))).
  - intros g0 id H e He. apply H. eapply removeEdge_edges_incl; eauto.
  - intros e He. exact He.
Qed.

End GraphFacts.

(** C7. [step()] changes [nodes], [edges] and [bridgeEdgeIds] only by
    calls to [addNode], [addEdge] and [bridgeEdgeIds.add], and [cleanup()]
    only by [removeEdge] and [pruneSpurs].  Whatever calls of these are made
    on the reset graph, in any number and order, the edge list has no
    self-loop and no two of its edges join the same unordered pair of node
    ids. *)
Theorem graph_ops_simple (ops : list GraphOps.Op) :
  (forall e, In e (edges (RoadGraph.graph (GraphOps.run ops))) ->
             startNodeId e <> endNodeId e)
  /\ (forall i j e1 e2, i <> j ->
        nth_error (edges (RoadGraph.graph (GraphOps.run ops))) i = Some e1 ->
        nth_error (edges (RoadGraph.graph (GraphOps.run ops))) j = Some e2 ->
        ~ sameEnds e1 e2).
Proof.
  pose proof (GraphFacts.inv_simple (GraphFacts.Inv_run ops)) as Hs.
  split.
  - intros e Hin. eapply GraphFacts.simple_In; eauto.
  - intros i j e1 e2 Hne H1 H2. eapply GraphFacts.simple_nth; eauto.
Qed.

(** X1. Under the calls of [GraphOps], edge ids stay unique, no adjacency list
    repeats a neighbour, and every entry [v] in the adjacency list of the
    node stored under [k] is backed by an edge between [k] and [v]. *)
Theorem graph_ops_wellFormed (ops : list GraphOps.Op) :
  wellFormed (RoadGraph.graph (GraphOps.run ops))
  /\ backed (RoadGraph.graph (GraphOps.run ops)).
Proof.
  split.
  - apply GraphFacts.Inv_wellFormed. apply GraphFacts.Inv_run.
  - apply GraphFacts.inv_backed. apply GraphFacts.Inv_run.
Qed.

(** X2. On a graph with unique edge ids and adjacency lists without
    repetition, one pass of [pruneSpurs] leaves no spur, so that a second
    pass removes nothing and reports [false]. *)
Theorem pruneSpurs_idempotent (g : Graph) :
  wellFormed g ->
  (forall e, In e (edges (snd (RoadGraph.pruneSpurs g))) ->
             RoadGraph.isSpur (snd (RoadGraph.pruneSpurs g)) e = false)
  /\ RoadGraph.pruneSpurs (snd (RoadGraph.pruneSpurs g))
     = (false, snd (RoadGraph.pruneSpurs g)).
Proof.
  intros Hwf.
  assert (H : forall e, In e (edges (snd (RoadGraph.pruneSpurs g))) ->
                RoadGraph.isSpur (snd (RoadGraph.pruneSpurs g)) e = false).
  { intros e. apply GraphFacts.pruneSpurs_no_spur. exact Hwf. }
  split; [exact H|]. apply GraphFacts.pruneSpurs_fixed. exact H.
Qed.

(** A triangle with a dead-end road at one corner. *)
Definition spurGraph : Graph :=
  RoadGraph.graph
    (RoadGraph.build
       [mkPoint 0 0; mkPoint 10 0; mkPoint 0 10; mkPoint (-10) (-10)]
       [(0, 1); (1, 2); (2, 0); (0, 3)]%nat).

Lemma pruneSpurs_idempotent_witness :
  fst (RoadGraph.pruneSpurs spurGraph) = true
  /\ (forall e, In e (edges (snd (RoadGraph.pruneSpurs spurGraph))) ->
                RoadGraph.isSpur (snd (RoadGraph.pruneSpurs spurGraph)) e = false)
  /\ RoadGraph.pruneSpurs (snd (RoadGraph.pruneSpurs spurGraph))
     = (false, snd (RoadGraph.pruneSpurs spurGraph)).
Proof.
  split; [vm_compute; reflexivity|].
  apply (@pruneSpurs_idempotent spurGraph).
  apply GraphFacts.Inv_wellFormed. apply GraphFacts.Inv_build.
Defined.

(** ** Cleanup: runs that stop by themselves, and runs that do not *)

Module CleanupRuns.

Import Cleanup.

Section WithWorld.

Context {M : MathLib}.
Variable params : GenerationParams.
Variable isPointInWater : Point -> bool.
Variable cityCenter : Point.
Variable canFitBuilding : Graph -> Plot -> bool.

Let cleanupLoop := cleanupLoop params isPointInWater cityCenter canFitBuilding.



Lemma fold_removeEdge_incl (ids : list string) (g : Graph) :
  incl (edges (fold_left RoadGraph.removeEdge ids g)) (edges g).
Proof.
  revert g. induction ids as [|id ids IH]; intros g; simpl.
  - intros e H. exact H.
  - intros e H. apply (@GraphFacts.removeEdge_edges_incl g id).
    apply IH. exact H.
Qed.


(** The loop only removes edges. *)
Lemma cleanupLoop_edges_incl (fuel : nat) (s : State) (spurs : bool)
  (removed : list string) :
  incl (edges (graph (final (cleanupLoop fuel s spurs removed))))
       (edges (graph s)).
Proof.
  subst cleanupLoop. revert s spurs removed.
  induction fuel as [|fuel IH]; intros s spurs removed;
    cbn [Cleanup.cleanupLoop].
  - intros e H. exact H.
  - pose proof (GraphFacts.pruneSpurs_edges_incl (graph s)) as Hp.
    destruct (RoadGraph.pruneSpurs (graph s)) as [pruned g1]. simpl in Hp.
    destruct (PlotGenerator.cleanupPlots params (canFitBuilding g1) (blockGen s))
      as [pg1 rm].
    destruct (PlotGenerator.findEmptyRoadLoops g1 pg1) as [|e es].
    + exact Hp.
    + intros x Hx. apply Hp. apply IH in Hx. cbn [graph] in Hx.
      eapply fold_removeEdge_incl. exact Hx.
Qed.




End WithWorld.

End CleanupRuns.




(** X4. [cleanup()] only removes roads: every edge of the graph it leaves
    is an edge of the graph it started from. *)
Theorem cleanup_only_removes_edges (M : MathLib) (params : GenerationParams)
  (isPointInWater : Point -> bool) (cityCenter : Point)
  (canFitBuilding : Graph -> Plot -> bool) (s : Cleanup.State) :
  incl (edges (Cleanup.graph
                 (Cleanup.final
                    (Cleanup.cleanup params isPointInWater cityCenter
                                     canFitBuilding s))))
       (edges (Cleanup.graph s)).
Proof.
  exact (@CleanupRuns.cleanupLoop_edges_incl M params isPointInWater
           cityCenter canFitBuilding Cleanup.maxIterations s false []).
Qed.



(** X3. When [cleanup()] returns after its loop
    stopped by itself, that is before the bound of 10 iterations was
    exhausted, every Plot remaining in the plot list passed the filter of
    [cleanupPlots]: its area is not below [minBuildingArea] and the width of
    its oriented bounding box is not below [minEdgeLength]. *)
Theorem cleanup_break_plots_pass (M : MathLib) (params : GenerationParams)
  (isPointInWater : Point -> bool) (cityCenter : Point)
  (canFitBuilding : Graph -> Plot -> bool) (s : Cleanup.State) (p : Plot) :
  Cleanup.stoppedByBreak
    (Cleanup.cleanup params isPointInWater cityCenter canFitBuilding s) = true ->
  In p (PlotGenerator.plots
          (Cleanup.blockGen
             (Cleanup.final
                (Cleanup.cleanup params isPointInWater cityCenter
                                 canFitBuilding s)))) ->
  (p_area p <? minBuildingArea params) = false
  /\ (obb_width (getOBB (p_points p)) <? minEdgeLength params) = false.
Proof.
  unfold Cleanup.cleanup. intros Hbreak Hin.
  destruct (@CleanupFacts.cleanupLoop_break_filtered M params isPointInWater
              cityCenter canFitBuilding _ _ _ _ p Hbreak Hin) as [g1 Hk].
  exact (CleanupFacts.keepPlot_passed params _ p Hk).
Qed.

Lemma cleanup_break_plots_pass_witness :
  (p_area loop20PlotA <? minBuildingArea testParams) = false
  /\ (obb_width (@getOBB Loop20Run.math (p_points loop20PlotA))
      <? minEdgeLength testParams) = false.
Proof.
  exact (@cleanup_break_plots_pass Loop20Run.math testParams dryLand
           Loop20Run.cityCenter Loop20Run.canFit Loop20Run.start loop20PlotA
           Loop20Run.run_stops Loop20Run.run_keepsPlotA).
Defined.

(** ** Face tracing: the shape of a traced face *)

(** The half-edge keys between consecutive nodes of a path. *)
Fixpoint pairKeys (path : list string) : list string :=
  match path with
  | a :: (b :: _) as rest => halfEdgeKey a b :: pairKeys rest
  | _ => []
  end.

Module FaceFacts.

Import PlotGenerator.

Lemma pairKeys_snoc (path : list string) (a b : string) :
  pairKeys ((path ++ [a]) ++ [b]) = pairKeys (path ++ [a]) ++ [halfEdgeKey a b].
Proof.
  induction path as [|x path IH]; simpl; [reflexivity|].
  destruct path as [|y path]; simpl in *; [reflexivity|].
  rewrite IH. reflexivity.
Qed.

Section WithGraph.

Context {M : MathLib}.
Variable g : Graph.
Variable nodeAngles : list (string * list (string * float)).
Variable visited : list string.
Variable startNode : string.

(** What the loop of [traceFace] maintains. *)
Record WalkInv (w : Walk) (n : nat) : Prop := mkWalkInv {
  wi_nodes : exists path, w_nodes w = startNode :: path
                          /\ last (w_nodes w) startNode = w_prev w;
  wi_keys : w_keys w = pairKeys (w_nodes w);
  wi_fresh : forall k, In k (w_keys w) -> StrSet.mem k visited = false;
  wi_len : length (w_nodes w) = S n;
  wi_edges : forall id, In id (w_edges w) ->
               exists e, In e (edges g) /\ e_id e = id;
}.

Lemma getEdgeBetween_In (u v : string) (e : Edge) :
  getEdgeBetween g u v = Some e -> In e (edges g).
Proof. unfold getEdgeBetween. intros H. apply find_some in H. apply H. Qed.

Lemma last_snoc {A : Type} (l : list A) (x d : A) : last (l ++ [x]) d = x.
Proof.
  induction l as [|y l IH]; simpl; [reflexivity|].
  destruct (l ++ [x]) eqn:E; [destruct l; discriminate|exact IH].
Qed.

Lemma nodes_snoc_last (w : Walk) :
  (exists path, w_nodes w = startNode :: path
                /\ last (w_nodes w) startNode = w_prev w) ->
  exists l, w_nodes w = l ++ [w_prev w].
Proof.
  intros (path & E & Hl).
  destruct (@exists_last _ (w_nodes w)) as (l & x & El);
    [rewrite E; discriminate|].
  exists l. rewrite El in Hl. rewrite last_snoc in Hl. subst x. exact El.
Qed.

Lemma traceStep_inv (w w' : Walk) (n : nat) :
  WalkInv w n -> traceStep g nodeAngles visited w = Some w' -> WalkInv w' (S n).
Proof.
  intros [(path & En & Hlast) Hk Hf Hlen He]. unfold traceStep.
  destruct (StrSet.mem (halfEdgeKey (w_prev w) (w_curr w)) visited) eqn:Hv;
    [discriminate|].
  destruct (nextNeighbor g nodeAngles w) as [nextId|]; [|discriminate].
  destruct (getEdgeBetween g (w_curr w) nextId) as [e|] eqn:Ee; [|discriminate].
  destruct (isBridge g e); [discriminate|].
  destruct (String.eqb nextId (w_prev w)); [discriminate|].
  intros [= <-]. constructor; simpl.
  - exists (path ++ [w_curr w]). rewrite En. split; [reflexivity|].
    rewrite <- En. apply last_snoc.
  - destruct (nodes_snoc_last w) as (l & El); [eauto|].
    rewrite Hk, El. symmetry. apply pairKeys_snoc.
  - intros k Hin. apply in_app_or in Hin. destruct Hin as [Hin|[<-|[]]]; auto.
  - rewrite length_app. simpl. lia.
  - intros id Hin. apply in_app_or in Hin. destruct Hin as [Hin|[<-|[]]]; auto.
    exists e. split; [eapply getEdgeBetween_In; eauto|reflexivity].
Qed.

(** The face that a successful trace returns. *)
Record FaceShape (f : Face) : Prop := mkFaceShape {
  fs_start : exists path, f_nodes f = startNode :: path;
  fs_keys : f_keys f = pairKeys (f_nodes f ++ [startNode]);
  fs_fresh : forall k, In k (removelast (f_keys f)) ->
                       StrSet.mem k visited = false;
  fs_edges : forall id, In id (f_edges f) ->
               exists e, In e (edges g) /\ e_id e = id;
}.

Lemma traceLoop_shape (fuel : nat) (w : Walk) (n : nat) (f : Face) :
  WalkInv w n ->
  traceLoop g fuel startNode nodeAngles visited w = Some f ->
  FaceShape f /\ (length (f_nodes f) <= S n + fuel)%nat.
Proof.
  revert w n. induction fuel as [|fuel IH]; intros w n HI; simpl.
  - destruct (String.eqb (w_curr w) startNode) eqn:E; [|discriminate].
    apply String.eqb_eq in E. intros [= <-].
    destruct HI as [Hn Hk Hf Hlen He]. split; [|simpl; lia].
    constructor; simpl.
    + destruct Hn as (path & En & _). eauto.
    + destruct (nodes_snoc_last w Hn) as (l & El).
      rewrite Hk, El, pairKeys_snoc, E. reflexivity.
    + intros k. rewrite removelast_last. apply Hf.
    + exact He.
  - destruct (String.eqb (w_curr w) startNode) eqn:E.
    + apply String.eqb_eq in E. intros [= <-].
      destruct HI as [Hn Hk Hf Hlen He]. split; [|simpl; lia].
      constructor; simpl.
      * destruct Hn as (path & En & _). eauto.
      * destruct (nodes_snoc_last w Hn) as (l & El).
        rewrite Hk, El, pairKeys_snoc, E. reflexivity.
      * intros k. rewrite removelast_last. apply Hf.
      * exact He.
    + destruct (traceStep g nodeAngles visited w) as [w1|] eqn:Es;
        [|discriminate].
      intros H. destruct (IH w1 (S n) (traceStep_inv HI Es) H) as [Hs Hl].
      split; [exact Hs|lia].
Qed.

Lemma traceStart_inv (secondNode : string) :
  WalkInv (traceStart g startNode secondNode) 0.
Proof.
  constructor; simpl.
  - exists []. auto.
  - reflexivity.
  - intros k [].
  - reflexivity.
  - intros id. destruct (getEdgeBetween g startNode secondNode) as [e|] eqn:E;
      [|intros []].
    intros [<-|[]]. exists e. split; [eapply getEdgeBetween_In; eauto|reflexivity].
Qed.

End WithGraph.

End FaceFacts.

(** X6. A face returned by [traceFace] starts at the start node, has at
    most 1001 nodes, carries exactly the half-edge keys between its
    consecutive nodes and back to the start node, names only edges of the
    graph, and, the closing key apart, none of its keys was in the visited
    set. *)
Theorem traceFace_shape (M : MathLib) (g : Graph) (startNode secondNode : string)
  (nodeAngles : list (string * list (string * float)))
  (visited : list string) (f : PlotGenerator.Face) :
  PlotGenerator.traceFace g startNode secondNode nodeAngles visited = Some f ->
  (exists path, PlotGenerator.f_nodes f = startNode :: path)
  /\ (length (PlotGenerator.f_nodes f) <= 1001)%nat
  /\ PlotGenerator.f_keys f
     = pairKeys (PlotGenerator.f_nodes f ++ [startNode])
  /\ (forall id, In id (PlotGenerator.f_edges f) ->
                 exists e, In e (edges g) /\ e_id e = id)
  /\ (forall k, In k (removelast (PlotGenerator.f_keys f)) ->
                StrSet.mem k visited = false).
Proof.
  unfold PlotGenerator.traceFace. intros H.
  destruct (@FaceFacts.traceLoop_shape M g nodeAngles visited startNode
              PlotGenerator.stepCap _ 0 f
              (FaceFacts.traceStart_inv g visited startNode secondNode) H)
    as [[H1 H2 H3 H4] Hl].
  repeat split; auto.
Qed.

Lemma traceFace_shape_witness :
  (exists path, ["n_0"; "n_3"; "n_1"]%string = "n_0"%string :: path)
  /\ (length ["n_0"; "n_3"; "n_1"]%string <= 1001)%nat
  /\ ["n_0->n_3"; "n_3->n_1"; "n_1->n_0"]%string
     = pairKeys (["n_0"; "n_3"; "n_1"]%string ++ ["n_0"%string])%list
  /\ (forall id, In id ["e_1"; "e_5"; "e_0"]%string ->
                 exists e, In e (edges crossedSquare) /\ e_id e = id)
  /\ (forall k, In k (removelast ["n_0->n_3"; "n_3->n_1"; "n_1->n_0"]%string) ->
                StrSet.mem k crossedVisited = false).
Proof.
  apply (@traceFace_shape RefMath.math crossedSquare "n_0" "n_3"
           (@PlotGenerator.buildNodeAngleMap RefMath.math crossedSquare)
           crossedVisited
           (PlotGenerator.mkFace
              ["n_0"; "n_3"; "n_1"]%string ["e_1"; "e_5"; "e_0"]%string
              ["n_0->n_3"; "n_3->n_1"; "n_1->n_0"]%string)).
  vm_compute. reflexivity.
Defined.

(** ** Numbers: absolute values against a bound *)

Module FloatAbs.

(** A number that is not below 50 is not negative, so that its absolute
    value is not below 50 either. *)
Lemma ltb_abs_false (x : float) : (x <? 50) = false -> (abs x <? 50) = false.
Proof.
  rewrite !ltb_spec, abs_spec. unfold SFltb.
  replace (Prim2SF 50) with (S754_finite false 7036874417766400 (-47))
    by (vm_compute; reflexivity).
  destruct (Prim2SF x) as [s|s| |s m e]; try destruct s;
    cbn [SFabs SFcompare]; try discriminate; auto.
Qed.

(** An absolute value is never below zero. *)
Lemma abs_not_negative (x : float) : (abs x <? 0) = false.
Proof.
  rewrite ltb_spec, abs_spec. unfold SFltb.
  replace (Prim2SF 0) with (S754_zero false) by (vm_compute; reflexivity).
  destruct (Prim2SF x) as [s|s| |s m e]; try destruct s; reflexivity.
Qed.

End FloatAbs.

(** ** Plot extraction: what every plot of [generate()] satisfies *)

(** An enclosed plot as [createEnclosedPlot] makes it. *)
Definition corePlot (p : Plot) : Prop :=
  isEnclosed p = true /\ p_type p = URBAN_CORE /\ (p_area p <? 50) = false.

(** A strip as [generateAndAddPlot] makes it. *)
Definition stripPlot (M : MathLib) (p : Plot) : Prop :=
  isEnclosed p = false /\ p_type p = SUBURBAN_STRIP
  /\ (p_area p <? 50) = false
  /\ (obb_width (getOBB (p_points p)) <? 8) = false
  /\ (3 <= length (p_points p))%nat.

Module PlotFacts.

Import PlotGenerator.

Section WithGraph.

Context {M : MathLib}.
Variable params : GenerationParams.
Variable isPointInWater : Point -> bool.
Variable cityCenter : Point.
Variable g : Graph.

(** Every plot of [s'] is a plot of [s] or satisfies [P]. *)
Definition grows (P : Plot -> Prop) (s s' : State) : Prop :=
  forall p, In p (plots s') -> In p (plots s) \/ P p.

Lemma grows_refl (P : Plot -> Prop) (s : State) : grows P s s.
Proof. intros p H. left. exact H. Qed.

Lemma grows_trans (P : Plot -> Prop) (s1 s2 s3 : State) :
  grows P s1 s2 -> grows P s2 s3 -> grows P s1 s3.
Proof.
  intros H12 H23 p H. destruct (H23 p H) as [H2|H2]; [|right; exact H2].
  apply H12. exact H2.
Qed.

Lemma grows_weaken (P Q : Plot -> Prop) (s s' : State) :
  (forall p, P p -> Q p) -> grows P s s' -> grows Q s s'.
Proof. intros HPQ H p Hp. destruct (H p Hp); auto. Qed.

Lemma grows_fold {A B : Type} (P : Plot -> Prop)
  (f : State * B -> A -> State * B) (l : list A) (st : State * B) :
  (forall st a, grows P (fst st) (fst (f st a))) ->
  grows P (fst st) (fst (fold_left f l st)).
Proof.
  intros Hf. revert st. induction l as [|a l IH]; intros st; simpl.
  - apply grows_refl.
  - eapply grows_trans; [apply Hf|apply IH].
Qed.

Lemma grows_fold_snd {A B : Type} (P : Plot -> Prop)
  (f : B * State -> A -> B * State) (l : list A) (st : B * State) :
  (forall st a, grows P (snd st) (snd (f st a))) ->
  grows P (snd st) (snd (fold_left f l st)).
Proof.
  intros Hf. revert st. induction l as [|a l IH]; intros st; simpl.
  - apply grows_refl.
  - eapply grows_trans; [apply Hf|apply IH].
Qed.

Lemma createEnclosedPlot_grows (s : State) (nodeIds edgeIds keys : list string) :
  grows corePlot s
    (createEnclosedPlot params isPointInWater g s nodeIds edgeIds keys).
Proof.
  unfold createEnclosedPlot.
  repeat match goal with
         | |- context [if ?c then _ else _] => destruct c eqn:?
         end; try apply grows_refl.
  intros p Hp. simpl in Hp. apply in_app_or in Hp.
  destruct Hp as [Hp|[<-|[]]]; [left; exact Hp|right].
  repeat split; simpl; auto.
Qed.

Lemma detectEnclosedPlots_grows (s : State) :
  grows corePlot s (detectEnclosedPlots params isPointInWater g s).
Proof.
  unfold detectEnclosedPlots.
  match goal with
  | |- grows _ s (snd (fold_left ?f ?l (?v, s))) =>
      change s with (snd (v, s)) at 1; apply grows_fold_snd
  end.
  intros [vis s0] edge. cbn [fst snd].
  destruct (isBridge g edge); [apply grows_refl|].
  match goal with
  | |- grows _ s0 (snd (fold_left ?f ?l (vis, s0))) =>
      change s0 with (snd (vis, s0)) at 1; apply grows_fold_snd
  end.
  intros [vis1 s1] uv. cbn [fst snd].
  destruct (StrSet.mem _ vis1); [apply grows_refl|].
  destruct (StrSet.mem _ (occupiedHalfEdges s1)); [apply grows_refl|].
  destruct (traceFace g (fst uv) (snd uv) _ vis1) as [result|];
    [|apply grows_refl].
  destruct (2 <? length (f_nodes result))%nat; [|apply grows_refl].
  simpl. apply createEnclosedPlot_grows.
Qed.

Lemma isValidPlot_true (accepted : list Plot) (poly : list Point) :
  isValidPlot accepted poly = true ->
  (3 <= length poly)%nat /\ (calculatePolygonArea poly <? 50) = false.
Proof.
  unfold isValidPlot.
  destruct (length poly <? 3)%nat eqn:E; [discriminate|].
  destruct (calculatePolygonArea poly <? 50); [discriminate|].
  intros _. apply Nat.ltb_ge in E. auto.
Qed.

Lemma generateAndAddPlot_grows (s : State) (vs nodeIds edgeIds : list string)
  (depth : float) :
  grows (stripPlot M) s
    (fst (fst (generateAndAddPlot isPointInWater g s vs nodeIds edgeIds depth))).
Proof.
  unfold generateAndAddPlot.
  match goal with
  | |- context [match ?a with Some _ => _ | None => _ end] =>
      assert (Hstrip : forall p, a = Some p -> stripPlot M p);
      [|destruct a as [p|] eqn:E]
  end.
  - intros p.
    repeat match goal with
           | |- context [if ?c then _ else _] => destruct c eqn:?
           end; intros H; try discriminate H; injection H as <-;
      match goal with
      | Hv : isValidPlot _ ?poly = true, Hw : (obb_width (getOBB ?poly) <? _) = false
        |- stripPlot _ (mkPlot _ ?poly _ _ _ _ _) =>
          destruct (isValidPlot_true _ _ Hv) as [Hlen Harea];
          repeat split; simpl;
          [apply FloatAbs.ltb_abs_false; exact Harea|exact Hw|exact Hlen]
      end.
  - simpl. intros q Hin. apply in_app_or in Hin.
    destruct Hin as [Hin|[<-|[]]]; [left; exact Hin|right].
    apply Hstrip. reflexivity.
  - apply grows_refl.
Qed.

Lemma attemptStroke_grows (s : State) (vs : list string) (u v : string)
  (depth : float) :
  grows (stripPlot M) s (fst (attemptStroke isPointInWater g s vs u v depth)).
Proof.
  unfold attemptStroke.
  destruct (StrSet.mem _ (occupiedHalfEdges s)); [apply grows_refl|].
  destruct (StrSet.mem _ vs); [apply grows_refl|].
  destruct (getStrokeStart g (occupiedHalfEdges s) u v) as [start end_].
  destruct (traceRoadStroke g (occupiedHalfEdges s) start end_)
    as [nodeIds edgeIds].
  pose proof (generateAndAddPlot_grows s vs nodeIds edgeIds depth) as H1.
  destruct (generateAndAddPlot isPointInWater g s vs nodeIds edgeIds depth)
    as [[s1 vs1] ok]. simpl in H1.
  destruct ok; [exact H1|].
  match goal with
  | |- context [generateAndAddPlot ?w ?gg s1 vs1 ?n ?e ?d] =>
      pose proof (generateAndAddPlot_grows s1 vs1 n e d) as H2;
      destruct (generateAndAddPlot w gg s1 vs1 n e d) as [[s2 vs2] ok2]
  end.
  simpl in *. eapply grows_trans; eauto.
Qed.

Lemma generateFilamentPlots_grows (s : State) :
  grows (stripPlot M) s
    (generateFilamentPlots params isPointInWater cityCenter g s).
Proof.
  unfold generateFilamentPlots.
  match goal with
  | |- grows _ s (fst (fold_left ?f ?l (s, ?vs))) =>
      change s with (fst (s, vs)) at 1; apply grows_fold
  end.
  intros [s0 vs0] edge. simpl.
  destruct (isBridge g edge); [apply grows_refl|].
  pose proof (attemptStroke_grows s0 vs0 (startNodeId edge) (endNodeId edge)) as H1.
  match goal with
  | |- context [attemptStroke ?w ?gg s0 vs0 ?a ?b ?d] =>
      specialize (H1 d); destruct (attemptStroke w gg s0 vs0 a b d) as [s1 vs1]
  end.
  eapply grows_trans; [exact H1|apply attemptStroke_grows].
Qed.

Lemma fillGaps_grows (s : State) :
  grows (stripPlot M) s (fillGaps isPointInWater g s).
Proof.
  unfold fillGaps.
  match goal with
  | |- grows _ s (fst (fold_left ?f ?l (s, ?vs))) =>
      change s with (fst (s, vs)) at 1; apply grows_fold
  end.
  intros [s0 vs0] edge. simpl.
  destruct (isBridge g edge); [apply grows_refl|].
  match goal with
  | |- context [if ?c then attemptStroke ?w ?gg s0 vs0 ?a ?b ?d else _] =>
      pose proof (attemptStroke_grows s0 vs0 a b d) as H1;
      destruct c; [destruct (attemptStroke w gg s0 vs0 a b d) as [s1 vs1]|]
  end.
  - simpl in H1.
    match goal with
    | |- context [if ?c then _ else _] => destruct c
    end; [|exact H1].
    eapply grows_trans; [exact H1|apply attemptStroke_grows].
  - match goal with
    | |- context [if ?c then _ else _] => destruct c
    end; [apply attemptStroke_grows|apply grows_refl].
Qed.

(** Every plot of [generate()] is an enclosed plot as [createEnclosedPlot]
    makes it or a strip as [generateAndAddPlot] makes it. *)
Lemma generate_plots (p : Plot) :
  In p (plots (generate params isPointInWater cityCenter g)) ->
  corePlot p \/ stripPlot M p.
Proof.
  unfold generate.
  destruct ((length (nodes g) <? 2)%nat || (length (edges g) <? 1)%nat);
    [intros []|].
  intros Hin.
  apply fillGaps_grows in Hin. destruct Hin as [Hin|Hin]; [|auto].
  simpl in Hin. apply GenerateFacts.sortBy_In in Hin.
  apply generateFilamentPlots_grows in Hin. destruct Hin as [Hin|Hin]; [|auto].
  apply detectEnclosedPlots_grows in Hin. destruct Hin as [[]|Hin]. auto.
Qed.

End WithGraph.

End PlotFacts.

(** X7. Every plot that [generate()] returns is either an enclosed plot of
    type URBAN_CORE or a strip of type SUBURBAN_STRIP with at least 3
    vertices whose oriented bounding box is not narrower than 8; in both
    cases its recorded area is not below 50. *)
Theorem generate_plot_kinds (M : MathLib) (params : GenerationParams)
  (isPointInWater : Point -> bool) (cityCenter : Point) (g : Graph) (p : Plot) :
  In p (PlotGenerator.plots
          (PlotGenerator.generate params isPointInWater cityCenter g)) ->
  (p_area p <? 50) = false
  /\ ((isEnclosed p = true /\ p_type p = URBAN_CORE)
      \/ (isEnclosed p = false /\ p_type p = SUBURBAN_STRIP
          /\ (obb_width (getOBB (p_points p)) <? 8) = false
          /\ (3 <= length (p_points p))%nat)).
Proof.
  intros Hin. apply PlotFacts.generate_plots in Hin.
  destruct Hin as [(H1 & H2 & H3)|(H1 & H2 & H3 & H4 & H5)]; auto 10.
Qed.

Lemma generate_plot_kinds_witness :
  (p_area loop20PlotA <? 50) = false
  /\ ((isEnclosed loop20PlotA = true /\ p_type loop20PlotA = URBAN_CORE)
      \/ (isEnclosed loop20PlotA = false /\ p_type loop20PlotA = SUBURBAN_STRIP
          /\ (obb_width (@getOBB RefMath.math (p_points loop20PlotA)) <? 8)
             = false
          /\ (3 <= length (p_points loop20PlotA))%nat)).
Proof.
  apply (@generate_plot_kinds RefMath.math testParams dryLand
           (mkPoint 250 250) squareLoop20 loop20PlotA).
  exact (proj1 (squareLoop20_two_plots (fun _ => 0) (fun _ => 0)
                  (mkPoint 250 250))).
Defined.
